(** * Tool execution layer of the question-answering agent

    A shallow embedding of the Python functions
      - [optimized_web_search]            (src/tools/web.py)
      - [load_youtube]                    (src/tools/youtube.py)
      - [is_text_file], [execute_python_file]   (src/tools/utils.py)
      - [BasicAgent.__call__]             (src/agent.py)
    together with the properties stated about them.

    Modelling conventions.
    - A Python [str] is a list of characters.  Characters are the code points
      U+0000..U+00FF (the type [ascii] read as Latin-1); [str.lower],
      [str.isspace] and [int()] are CPython's, restricted to that range.
    - A Python [bytes] is a list of [Byte.byte].
    - A call that may raise returns a value of [py A]: [Ret a] or [Raise e].
      [try]/[except] is written out as a match on that result.  Only
      subclasses of [Exception] are modelled.
    - The outside world (file system, child processes, the transcript
      provider, the search engine, the clock) is an explicit argument. *)

From Stdlib Require Import Bool Arith ZArith NArith QArith Lia Ascii String.
From Stdlib Require Import DecimalString DecimalPos List.
From Stdlib.Strings Require Byte.
Import ListNotations.
Close Scope Q_scope.
Open Scope list_scope.

Set Implicit Arguments.

(** ** Python strings *)

Module Text.

Definition pystr := list ascii.

(** A string literal of the source. *)
Definition str (s : string) : pystr := list_ascii_of_string s.

Definition code (c : ascii) : N := N_of_ascii c.

(** [str.isspace] on one character (Py_UNICODE_ISSPACE below U+0100). *)
Definition isspace (c : ascii) : bool :=
  let n := code c in
  ((9 <=? n) && (n <=? 13) || (28 <=? n) && (n <=? 32)
   || (n =? 133) || (n =? 160))%N.

(** [str.lower] on one character: A-Z and the Latin-1 capitals
    U+00C0..U+00DE (without the multiplication sign U+00D7) move up by 32. *)
Definition lower_char (c : ascii) : ascii :=
  let n := code c in
  if ((65 <=? n) && (n <=? 90)
      || (192 <=? n) && (n <=? 222) && negb (n =? 215))%N
  then ascii_of_N (n + 32) else c.

Definition lower (s : pystr) : pystr := map lower_char s.

(** [s.replace(c, "")] for a one-character [c]. *)
Definition remove_char (c : ascii) (s : pystr) : pystr :=
  filter (fun d => negb (Ascii.eqb d c)) s.

Fixpoint lstrip (s : pystr) : pystr :=
  match s with
  | c :: s' => if isspace c then lstrip s' else s
  | [] => []
  end.

Definition rstrip (s : pystr) : pystr := rev (lstrip (rev s)).

(** [s.strip()] *)
Definition strip (s : pystr) : pystr := rstrip (lstrip s).

(** [s.split()] with no argument: the maximal runs of non-space characters.
    [cur] is the run being read, in reverse. *)
Fixpoint split_acc (cur : pystr) (s : pystr) : list pystr :=
  match s with
  | [] => match cur with [] => [] | _ => [rev cur] end
  | c :: s' =>
      if isspace c
      then match cur with
           | [] => split_acc [] s'
           | _ => rev cur :: split_acc [] s'
           end
      else split_acc (c :: cur) s'
  end.

Definition split (s : pystr) : list pystr := split_acc [] s.

(** [sep.join(parts)] *)
Fixpoint join (sep : pystr) (parts : list pystr) : pystr :=
  match parts with
  | [] => []
  | [p] => p
  | p :: rest => p ++ sep ++ join sep rest
  end.

Fixpoint startswith (p s : pystr) : bool :=
  match p, s with
  | [], _ => true
  | _ :: _, [] => false
  | c :: p', d :: s' => Ascii.eqb c d && startswith p' s'
  end.

Definition endswith (s p : pystr) : bool := startswith (rev p) (rev s).

(** [s.find(p)] counted from offset [i]: the least offset at which [p]
    starts, if any. *)
Fixpoint find_from (i : nat) (p s : pystr) : option nat :=
  if startswith p s then Some i
  else match s with
       | [] => None
       | _ :: s' => find_from (S i) p s'
       end.

Definition find (p s : pystr) : option nat := find_from 0 p s.

(** [p in s] *)
Definition contains (p s : pystr) : bool :=
  match find p s with Some _ => true | None => false end.

(** [s[i:j]] for [0 <= i], [0 <= j] (a slice never raises, it clips). *)
Definition slice (s : pystr) (i j : nat) : pystr := firstn (j - i) (skipn i s).

(** [p] occurs in [s] as a substring. *)
Definition Occurs (p s : pystr) : Prop := exists pre post, s = pre ++ p ++ post.

(** [p] occurs in [s] at offset [i]. *)
Definition OccursAt (i : nat) (p s : pystr) : Prop :=
  exists post, skipn i s = p ++ post /\ i <= length s.

End Text.

Import Text.

(** ** Exceptions *)

Module Exn.

(** The exception classes that occur; all derive from [Exception]. *)
Inductive exn_class :=
| UnicodeDecodeError | OSError | ValueError
| TimeoutExpired | CalledProcessError | OtherSubprocessError
| Exception.

Record exn := mk_exn { cls : exn_class; msg : pystr }.

Inductive py (A : Type) :=
| Ret (a : A)
| Raise (e : exn).

Arguments Ret {A} a.
Arguments Raise {A} e.

Definition bind {A B} (m : py A) (k : A -> py B) : py B :=
  match m with Ret a => k a | Raise e => Raise e end.

(** [isinstance(e, subprocess.SubprocessError)] *)
Definition is_subprocess_error (c : exn_class) : bool :=
  match c with
  | TimeoutExpired | CalledProcessError | OtherSubprocessError => true
  | _ => false
  end.

Definition raises {A} (m : py A) : Prop := exists e, m = Raise e.
Definition returns {A} (m : py A) : Prop := exists a, m = Ret a.

End Exn.

Import Exn.

Notation "x <- m ;; k" := (bind m (fun x => k))
  (at level 61, m at next level, right associativity).

(** ** The builtins [bytes.decode('utf-8')], [int] and [str] *)

Module Builtins.

Definition byte := Byte.byte.
Definition bytes := list byte.

Definition is_continuation (b : N) : bool := ((128 <=? b) && (b <=? 191))%N.

Definition decode_error (reason : string) : exn :=
  mk_exn UnicodeDecodeError (str reason).

(** The strict UTF-8 decoder: the code points of [bs], or
    [UnicodeDecodeError] at the first ill-formed sequence. *)
Fixpoint utf8_decode (bs : bytes) : py (list N) :=
  match bs with
  | [] => Ret []
  | b0 :: r0 =>
      let ch := Byte.to_N b0 in
      if (ch <? 128)%N then
        rest <- utf8_decode r0 ;; Ret (ch :: rest)
      else if (ch <? 224)%N then
        if (ch <? 194)%N then Raise (decode_error "invalid start byte")
        else match r0 with
             | [] => Raise (decode_error "unexpected end of data")
             | b1 :: r1 =>
                 let ch2 := Byte.to_N b1 in
                 if negb (is_continuation ch2)
                 then Raise (decode_error "invalid continuation byte")
                 else rest <- utf8_decode r1 ;;
                      Ret ((N.shiftl ch 6 + ch2 - 12416)%N :: rest)
             end
      else if (ch <? 240)%N then
        match r0 with
        | [] => Raise (decode_error "unexpected end of data")
        | b1 :: r1 =>
            let ch2 := Byte.to_N b1 in
            if negb (is_continuation ch2)
               || (if (ch2 <? 160)%N then (ch =? 224)%N else (ch =? 237)%N)
            then Raise (decode_error "invalid continuation byte")
            else match r1 with
                 | [] => Raise (decode_error "unexpected end of data")
                 | b2 :: r2 =>
                     let ch3 := Byte.to_N b2 in
                     if negb (is_continuation ch3)
                     then Raise (decode_error "invalid continuation byte")
                     else rest <- utf8_decode r2 ;;
                          Ret ((N.shiftl ch 12 + N.shiftl ch2 6 + ch3
                                - 925824)%N :: rest)
                 end
        end
      else if (ch <? 245)%N then
        match r0 with
        | [] => Raise (decode_error "unexpected end of data")
        | b1 :: r1 =>
            let ch2 := Byte.to_N b1 in
            if negb (is_continuation ch2)
               || (if (ch2 <? 144)%N then (ch =? 240)%N else (ch =? 244)%N)
            then Raise (decode_error "invalid continuation byte")
            else match r1 with
                 | [] => Raise (decode_error "unexpected end of data")
                 | b2 :: r2 =>
                     let ch3 := Byte.to_N b2 in
                     if negb (is_continuation ch3)
                     then Raise (decode_error "invalid continuation byte")
                     else match r2 with
                          | [] => Raise (decode_error "unexpected end of data")
                          | b3 :: r3 =>
                              let ch4 := Byte.to_N b3 in
                              if negb (is_continuation ch4)
                              then Raise (decode_error
                                            "invalid continuation byte")
                              else rest <- utf8_decode r3 ;;
                                   Ret ((N.shiftl ch 18 + N.shiftl ch2 12
                                         + N.shiftl ch3 6 + ch4
                                         - 63447168)%N :: rest)
                          end
                 end
        end
      else Raise (decode_error "invalid start byte")
  end.

(** Well-formed UTF-8 byte sequences (Unicode, table 3-7), as a grammar. *)
Definition in_range (lo hi : N) (b : byte) : Prop :=
  (lo <= Byte.to_N b <= hi)%N.

Inductive second_of_three : byte -> byte -> Prop :=
| s3_E0 b0 b1 : Byte.to_N b0 = 224%N -> in_range 160 191 b1 ->
                second_of_three b0 b1
| s3_E1_EC b0 b1 : in_range 225 236 b0 -> in_range 128 191 b1 ->
                   second_of_three b0 b1
| s3_ED b0 b1 : Byte.to_N b0 = 237%N -> in_range 128 159 b1 ->
                second_of_three b0 b1
| s3_EE_EF b0 b1 : in_range 238 239 b0 -> in_range 128 191 b1 ->
                   second_of_three b0 b1.

Inductive second_of_four : byte -> byte -> Prop :=
| s4_F0 b0 b1 : Byte.to_N b0 = 240%N -> in_range 144 191 b1 ->
                second_of_four b0 b1
| s4_F1_F3 b0 b1 : in_range 241 243 b0 -> in_range 128 191 b1 ->
                   second_of_four b0 b1
| s4_F4 b0 b1 : Byte.to_N b0 = 244%N -> in_range 128 143 b1 ->
                second_of_four b0 b1.

Inductive well_formed_utf8 : bytes -> Prop :=
| wf_end : well_formed_utf8 []
| wf_one b0 r : in_range 0 127 b0 -> well_formed_utf8 r ->
                well_formed_utf8 (b0 :: r)
| wf_two b0 b1 r : in_range 194 223 b0 -> in_range 128 191 b1 ->
                   well_formed_utf8 r -> well_formed_utf8 (b0 :: b1 :: r)
| wf_three b0 b1 b2 r : second_of_three b0 b1 -> in_range 128 191 b2 ->
                        well_formed_utf8 r ->
                        well_formed_utf8 (b0 :: b1 :: b2 :: r)
| wf_four b0 b1 b2 b3 r : second_of_four b0 b1 -> in_range 128 191 b2 ->
                          in_range 128 191 b3 -> well_formed_utf8 r ->
                          well_formed_utf8 (b0 :: b1 :: b2 :: b3 :: r).

(** *** [int(s)] in base 10 *)

Definition digit_value (c : ascii) : option Z :=
  let n := code c in
  if ((48 <=? n) && (n <=? 57))%N then Some (Z.of_N (n - 48)) else None.

Definition is_underscore (c : ascii) : bool := Ascii.eqb c "_"%char.

(** The digit scan: digits, with single underscores between them.  [acc] is
    the value read so far, [prev] says the last character was [_]. *)
Fixpoint scan_digits (acc : Z) (prev : bool) (s : pystr) : option Z :=
  match s with
  | [] => if prev then None else Some acc
  | c :: s' =>
      if is_underscore c
      then if prev then None else scan_digits acc true s'
      else match digit_value c with
           | Some d => scan_digits (10 * acc + d) false s'
           | None => None
           end
  end.

(** An optional sign, then at least one digit; no leading underscore. *)
Definition parse_int (s : pystr) : option Z :=
  let signed :=
    match s with
    | c :: r => if Ascii.eqb c "+"%char then (false, r)
                else if Ascii.eqb c "-"%char then (true, r)
                else (false, s)
    | [] => (false, s)
    end in
  let neg := fst signed in
  let body := snd signed in
  match body with
  | [] => None
  | c :: _ =>
      if is_underscore c then None
      else match scan_digits 0 false body with
           | Some v => Some (if neg then (- v)%Z else v)
           | None => None
           end
  end.

(** [int(s)]: surrounding white space is skipped; anything that is not a
    literal raises [ValueError].  The cap that CPython 3.11 and later put on
    the number of digits (4300 unless lifted) is not modelled. *)
Definition py_int (s : pystr) : py Z :=
  match parse_int (strip s) with
  | Some z => Ret z
  | None => Raise (mk_exn ValueError
                     (str "invalid literal for int() with base 10"))
  end.

(** The value of a decimal numeral read after the digits worth [acc]. *)
Fixpoint uint_value (acc : Z) (d : Decimal.uint) : Z :=
  match d with
  | Decimal.Nil => acc
  | Decimal.D0 d' => uint_value (10 * acc + 0) d'
  | Decimal.D1 d' => uint_value (10 * acc + 1) d'
  | Decimal.D2 d' => uint_value (10 * acc + 2) d'
  | Decimal.D3 d' => uint_value (10 * acc + 3) d'
  | Decimal.D4 d' => uint_value (10 * acc + 4) d'
  | Decimal.D5 d' => uint_value (10 * acc + 5) d'
  | Decimal.D6 d' => uint_value (10 * acc + 6) d'
  | Decimal.D7 d' => uint_value (10 * acc + 7) d'
  | Decimal.D8 d' => uint_value (10 * acc + 8) d'
  | Decimal.D9 d' => uint_value (10 * acc + 9) d'
  end.

(** [str(z)] for an integer. *)
Definition py_str (z : Z) : pystr :=
  list_ascii_of_string (DecimalString.NilZero.string_of_int (Z.to_int z)).

End Builtins.

(** ** The world the tools run in *)

Module World.

Import Builtins.

(** How the child started by [subprocess.run([sys.executable, path])]
    behaves when left alone. *)
Inductive child :=
| Exits (run_time : Q) (returncode : Z) (stdout stderr : pystr)
| Hangs
| Fails (e : exn).   (* the call itself raises, e.g. [OSError] *)

Record world := mk_world {
  path_exists : pystr -> bool;         (* [os.path.exists] *)
  open_rb : pystr -> py bytes;         (* [open(p, 'rb')]: the file's bytes *)
  open_r : pystr -> py pystr;          (* [open(p, "r", encoding="utf-8",
                                           errors="ignore").read()] *)
  child_of : pystr -> child
}.

(** A world without any file. *)
Definition nothing_exists : world :=
  mk_world (fun _ => false)
    (fun _ => Raise (mk_exn OSError (str "No such file or directory")))
    (fun _ => Raise (mk_exn OSError (str "No such file or directory")))
    (fun _ => Fails (mk_exn OSError (str "No such file or directory"))).

(** A world with the single file [name], holding the bytes [content], read
    as [text] in text mode, that behaves like [c] when run. *)
Definition one_file (name : pystr) (content : bytes) (text : pystr)
    (c : child) : world :=
  mk_world
    (fun p => if list_eq_dec ascii_dec p name then true else false)
    (fun p => if list_eq_dec ascii_dec p name then Ret content
              else Raise (mk_exn OSError (str "No such file or directory")))
    (fun p => if list_eq_dec ascii_dec p name then Ret text
              else Raise (mk_exn OSError (str "No such file or directory")))
    (fun p => if list_eq_dec ascii_dec p name then c
              else Fails (mk_exn OSError (str "No such file or directory"))).

End World.

(** ** src/tools/web.py *)

Module Web.

(** What [DuckDuckGoSearchTool.forward] hands back: a flat string, or a list
    of result objects of which only the ["content"] entry is read
    ([None] when the key is absent). *)
Inductive search_results :=
| Flat (s : pystr)
| Results (l : list (option pystr)).

(** [ceil(a / b)] *)
Definition ceil_div (a b : nat) : nat := (a + b - 1) / b.

(** [range(i, stop, step)] for [step > 0]; [fuel] bounds the number of
    elements. *)
Fixpoint range_step (fuel i stop step : nat) : list nat :=
  match fuel with
  | 0 => []
  | S fuel' => if i <? stop then i :: range_step fuel' (i + step) stop step
               else []
  end.

(** [range(0, stop, step)]: a zero step raises [ValueError], a negative one
    gives the empty range. *)
Definition py_range (stop : nat) (step : Z) : py (list nat) :=
  if (step =? 0)%Z
  then Raise (mk_exn ValueError (str "range() arg 3 must not be zero"))
  else if (step <? 0)%Z then Ret []
  else Ret (range_step stop 0 stop (Z.to_nat step)).

(** Lines 33-35: the partition loop. *)
Definition make_batches (all_content : pystr) (batch_size : Z)
  : py (list pystr) :=
  r <- py_range (length all_content) batch_size ;;
  Ret (fold_left
         (fun batches i =>
            batches ++ [slice all_content i (i + Z.to_nat batch_size)])
         r []).

(** Line 40: [any(word.lower() in batch.lower() for word in important_words)] *)
Definition keep_batch (important_words : list pystr) (batch : pystr) : bool :=
  existsb (fun word => contains (lower word) (lower batch)) important_words.

(** Lines 38-41: the filter loop. *)
Definition filter_batches (important_words batches : list pystr)
  : list pystr :=
  fold_left
    (fun filtered_batches batch =>
       if keep_batch important_words batch
       then filtered_batches ++ [batch] else filtered_batches)
    batches [].

(** Lines 25-30 *)
Definition flatten (r : search_results) : pystr :=
  match r with
  | Flat s => s
  | Results l =>
      join (str " ")
        (map (fun c => match c with Some s => s | None => [] end) l)
  end.

(** Line 21: [not search_results or len(search_results) == 0] *)
Definition is_empty (r : option search_results) : bool :=
  match r with
  | None | Some (Flat []) | Some (Results []) => true
  | _ => false
  end.

Section Search.

(** [repr] of a list of strings, as the f-string of line 46 prints it. *)
Variable repr_list : list pystr -> pystr.

(** The whole tool.  [forward] is the outcome of the search call of line 19. *)
Definition optimized_web_search (forward : py (option search_results))
    (important_words : list pystr) (batch_size : Z) : py pystr :=
  let body :=
    search_results <- forward ;;
    if is_empty search_results then Ret (str "No search results found.")
    else
      let all_content :=
        match search_results with Some r => flatten r | None => [] end in
      batches <- make_batches all_content batch_size ;;
      let filtered_batches := filter_batches important_words batches in
      let filtered_content := join (str (String "010" (String "010" "")))
                                filtered_batches in
      match filtered_content with
      | [] => Ret (str "No content containing the important words "
                   ++ repr_list important_words
                   ++ str " was found in the search results.")
      | _ => Ret filtered_content
      end in
  match body with
  | Ret s => Ret s
  | Raise e => Ret (str "Error during optimized web search: " ++ msg e)
  end.

End Search.

End Web.

(** ** The retry decorator of the [backoff] package

    [load_youtube] wraps its loader in
    [backoff.on_exception(backoff.expo, Exception, max_tries=8, max_time=60)].
    The package is a dependency of the repository; this is its synchronous
    retry loop, with the clock and the random jitter made explicit. *)

Module Backoff.

Section Retry.

Variable A : Type.

(** What the environment decides at the [n]-th call of the target
    (counted from 1): the outcome of the call, how long the call takes, and
    the draw in [0,1] that [full_jitter] scales the wait by. *)
Record call := mk_call { outcome : py A; duration : Q; draw : Q }.

Variable target : nat -> call.
Variable max_tries : nat.
Variable max_time : Q.

(** [backoff.expo]: the [n]-th value (from 0) is [2 ** n]. *)
Definition expo (n : nat) : Q := inject_Z (2 ^ Z.of_nat n).

(** [full_jitter(value)] is [random.uniform(0, value)]. *)
Definition full_jitter (u value : Q) : Q := (u * value)%Q.

Definition Qmin (a b : Q) : Q := if Qle_bool a b then a else b.

(** [_next_wait]: the jittered value, never beyond the time that is left. *)
Definition next_wait (n : nat) (u elapsed : Q) : Q :=
  Qmin (full_jitter u (expo n)) (max_time - elapsed)%Q.

(** One run of the decorated function. *)
Record run := mk_run {
  result : option (py A);   (* [None]: the loop was cut off by [fuel] *)
  tries_made : nat;
  started : list Q;         (* elapsed time at the start of each try *)
  sleeps : list Q           (* the waits, in order *)
}.

Definition push (t : Q) (s : option Q) (r : run) : run :=
  mk_run (result r) (tries_made r) (t :: started r)
         (match s with Some x => x :: sleeps r | None => sleeps r end).

(** The [while True] loop of [retry]; [tries] counts the calls made so far
    and [now] is the time elapsed since [start]. *)
Fixpoint retry_loop (fuel : nat) (tries : nat) (now : Q) : run :=
  match fuel with
  | 0 => mk_run None tries [] []
  | S fuel' =>
      let tries := S tries in
      let elapsed := now in
      let c := target tries in
      match outcome c with
      | Ret ret => mk_run (Some (Ret ret)) tries [elapsed] []
      | Raise e =>
          let max_tries_exceeded := tries =? max_tries in
          let max_time_exceeded := Qle_bool max_time elapsed in
          if max_tries_exceeded || max_time_exceeded
          then mk_run (Some (Raise e)) tries [elapsed] []
          else
            let seconds := next_wait (tries - 1) (draw c) elapsed in
            push elapsed (Some seconds)
              (retry_loop fuel' tries (now + duration c + seconds)%Q)
      end
  end.

Definition on_exception_run : run := retry_loop max_tries 0 0%Q.

(** The decorated function as the caller sees it.  The loop ends within
    [max_tries] iterations when [max_tries >= 1] (lemma
    [on_exception_total] below); the fall-back branch is never taken. *)
Definition on_exception : py A :=
  match result on_exception_run with
  | Some r => r
  | None => outcome (target max_tries)
  end.

End Retry.

End Backoff.

(** ** src/tools/youtube.py *)

Module Youtube.

(** What the transcript provider answers to one [loader.load()]: the
    [page_content] of the documents, or an exception. *)
Definition provider := nat -> Backoff.call (list pystr).

(** Lines 30-36: the body of [_loader]. *)
Definition _loader (load : py (list pystr)) : py pystr :=
  doc <- load ;;
  match doc with
  | d :: _ => Ret (lower d)
  | [] => Raise (mk_exn Exception (str "Empty document"))
  end.

Definition max_tries : nat := 8.
Definition max_time : Q := 60%Q.

(** The decorated [_loader]. *)
Definition loader_calls (p : provider) : nat -> Backoff.call pystr :=
  fun n => Backoff.mk_call (_loader (Backoff.outcome (p n)))
             (Backoff.duration (p n)) (Backoff.draw (p n)).

Definition _loader_retrying (p : provider) : py pystr :=
  Backoff.on_exception (loader_calls p) max_tries max_time.

(** Line 38 *)
Definition normalize_phrase (phrase : pystr) : pystr :=
  lower (remove_char "?"%char (remove_char "."%char phrase)).

(** [content.index(phrase)] *)
Definition index (phrase content : pystr) : py nat :=
  match find phrase content with
  | Some i => Ret i
  | None => Raise (mk_exn ValueError (str "substring not found"))
  end.

(** Lines 38-42, given the content the loader came back with. *)
Definition seek (phrase content : pystr) : py pystr :=
  if contains phrase content
  then i <- index phrase content ;; Ret (slice content i (length content))
  else Ret content.

Definition load_youtube (p : provider) (phrase : pystr) : py pystr :=
  let phrase := normalize_phrase phrase in
  content <- _loader_retrying p ;;
  seek phrase content.

(** Sample providers: one that always answers [docs]; two whose [n]-th call
    raises an exception carrying [n], after 1 and after 40 seconds; one that
    fails [k] times first. *)
Definition always_loads (docs : list pystr) : provider :=
  fun _ => Backoff.mk_call (Ret docs) 1%Q 0%Q.

Definition always_fails : provider :=
  fun n => Backoff.mk_call
             (Raise (mk_exn OSError (Builtins.py_str (Z.of_nat n))))
             1%Q (1 # 2)%Q.

Definition slow_fails : provider :=
  fun n => Backoff.mk_call
             (Raise (mk_exn OSError (Builtins.py_str (Z.of_nat n))))
             40%Q 0%Q.


End Youtube.

(** ** src/tools/utils.py *)

Module Utils.

Import Builtins World.

(** Lines 95-106 *)
Definition is_text_file (w : world) (file_path : pystr) : py bool :=
  let body :=
    file <- open_rb w file_path ;;
    let chunk := firstn 1024 file in
    _ <- utf8_decode chunk ;;
    Ret true in
  match body with
  | Ret b => Ret b
  | Raise e =>
      match cls e with
      | UnicodeDecodeError => Ret false
      | _ => Ret false          (* after printing "Error reading file" *)
      end
  end.

Record CompletedProcess := mk_completed {
  returncode : Z; stdout : pystr; stderr : pystr
}.

(** [subprocess.run(..., capture_output=True, text=True, timeout=t)]:
    a child still running after [t] seconds is killed and
    [TimeoutExpired] is raised. *)
Definition subprocess_run (c : child) (timeout : Q) : py CompletedProcess :=
  match c with
  | Exits run_time rc out err =>
      if Qle_bool run_time timeout then Ret (mk_completed rc out err)
      else Raise (mk_exn TimeoutExpired (str "timed out"))
  | Hangs => Raise (mk_exn TimeoutExpired (str "timed out"))
  | Fails e => Raise e
  end.

(** Line 149 *)
Definition run_timeout : Q := 180%Q.

(** Line 167 *)
Definition timeout_message : pystr :=
  str "Error: Execution timed out after 60 seconds".

Definition no_output_message : pystr :=
  str "Script executed successfully with no output".

Definition nonempty (s : pystr) : bool :=
  match s with [] => false | _ => true end.

(** Lines 159-163: the first token that [int] accepts, printed back. *)
Fixpoint first_int (tokens : list pystr) : option pystr :=
  match tokens with
  | [] => None
  | i :: rest =>
      match py_int (strip i) with
      | Ret z => Some (py_str z)
      | Raise _ => first_int rest
      end
  end.

(** Lines 153-164: what is made of a finished run. *)
Definition reduce_result (result : CompletedProcess) : pystr :=
  if nonempty (stderr result) && negb (returncode result =? 0)%Z
  then str "Error: " ++ strip (stderr result)
  else if nonempty (stderr result)
  then strip (stdout result)
       ++ str (String "010" "Warnings/Info: ") ++ strip (stderr result)
  else match first_int (split (strip (stdout result))) with
       | Some n => n
       | None => if nonempty (strip (stdout result))
                 then strip (stdout result)
                 else no_output_message
       end.

(** Lines 135-173 *)
Definition execute_python_file (w : world) (file_path : pystr) : py pystr :=
  if negb (path_exists w file_path)
  then Ret (str "Error: File not found: " ++ file_path)
  else if negb (endswith file_path (str ".py"))
  then Ret (str "Error: File is not a Python file: " ++ file_path)
  else
    let body :=
      result <- subprocess_run (child_of w file_path) run_timeout ;;
      Ret (reduce_result result) in
    match body with
    | Ret s => Ret s
    | Raise e =>
        match cls e with
        | TimeoutExpired => Ret timeout_message
        | c => if is_subprocess_error c
               then Ret (str "Error: Subprocess error: " ++ msg e)
               else Ret (str "Error: Unexpected error: " ++ msg e)
        end
    end.

End Utils.

(** ** src/agent.py *)

Module Agent.

Import Builtins World Utils.

(** [str.rfind] of one character. *)
Fixpoint rfind_from (i : nat) (c : ascii) (s : pystr) : option nat :=
  match s with
  | [] => None
  | d :: s' =>
      match rfind_from (S i) c s' with
      | Some j => Some j
      | None => if Ascii.eqb d c then Some i else None
      end
  end.

(** [s.split('/')] *)
Fixpoint split_slash (cur : pystr) (s : pystr) : list pystr :=
  match s with
  | [] => [rev cur]
  | c :: s' => if Ascii.eqb c "/"%char then rev cur :: split_slash [] s'
               else split_slash (c :: cur) s'
  end.

(** [Path(p).name] on a POSIX path: the last component that is neither
    empty nor [.]. *)
Definition path_name (p : pystr) : pystr :=
  last (filter (fun c => nonempty c
                         && negb (if list_eq_dec ascii_dec c (str ".")
                                  then true else false))
               (split_slash [] p)) [].

(** [Path(p).suffix] *)
Definition suffix (p : pystr) : pystr :=
  let name := path_name p in
  match rfind_from 0 "."%char name with
  | Some i => if (0 <? i) && (i <? length name - 1)
              then skipn i name else []
  | None => []
  end.

Definition pystr_eqb (a b : pystr) : bool :=
  if list_eq_dec ascii_dec a b then true else false.

(** Lines 40-60 of [BasicAgent.__call__]: the prompt handed to the agent. *)
Definition build_prompt (w : world) (question : pystr)
    (file_path : option pystr) : pystr :=
  let prompt := question in
  match file_path with
  | Some file_path =>
      if nonempty file_path && path_exists w file_path then
        let body :=
          text <- is_text_file w file_path ;;
          if text then
            file_content <- open_r w file_path ;;
            if pystr_eqb (suffix file_path) (str ".py")
            then Ret (prompt ++ str (String "010" "Attached Python code file: ")
                             ++ file_path)
            else Ret (prompt
                      ++ str (String "010" "Attached File Content:")
                      ++ str (String "010" "") ++ file_content)
          else
            if pystr_eqb (suffix file_path) (str ".mp3")
            then Ret (prompt
                      ++ str (String "010" "Use the 'transcribe_audio' tool to extract text from the mp3 file.")
                      ++ str (String "010" "Attached mp3 file: ") ++ file_path)
            else Ret (prompt ++ str (String "010" "Attached File Path: ")
                             ++ file_path) in
        match body with
        | Ret p => p
        | Raise _ => prompt       (* after printing "Failed to read file" *)
        end
      else prompt
  | None => prompt
  end.

(** [BasicAgent.__call__]; [agent_run] is [self._agent.run]. *)
Definition BasicAgent_call (agent_run : pystr -> py pystr) (w : world)
    (question : pystr) (file_path : option pystr) : py pystr :=
  agent_run (build_prompt w question file_path).

End Agent.

From Stdlib Require Import Sorted.

(** ** src/tools/utils.py: strings and word lists *)

Module Lexicon.

Import Builtins World Utils.

(** A string that does not begin with white space. *)
Definition head_ok (s : pystr) : Prop :=
  match s with [] => True | c :: _ => isspace c = false end.

(** Lines 11-26: [text[::-1]] *)
Definition reverse_string (text : pystr) : pystr := rev text.

Fixpoint str_eqb (a b : pystr) : bool :=
  match a, b with
  | [], [] => true
  | c :: a', d :: b' => Ascii.eqb c d && str_eqb a' b'
  | _, _ => false
  end.

(** [x in l] for a list, tuple or set of strings. *)
Definition mem (x : pystr) (l : list pystr) : bool := existsb (str_eqb x) l.

(** [d.get(k)] for a dict with string keys. *)
Fixpoint lookup (k : pystr) (d : list (pystr * pystr)) : option pystr :=
  match d with
  | [] => None
  | (k', v) :: d' => if str_eqb k k' then Some v else lookup k d'
  end.

(** [s[:-n]] *)
Definition drop_last (n : nat) (s : pystr) : pystr :=
  firstn (length s - n) s.

(** [s[-i:-j]] for [i >= j > 0] *)
Definition slice_from_end (s : pystr) (i j : nat) : pystr :=
  slice s (length s - i) (length s - j).

Definition irregular_plurals : list (pystr * pystr) :=
  [ (str "children", str "child"); (str "feet", str "foot");
    (str "teeth", str "tooth"); (str "geese", str "goose");
    (str "mice", str "mouse"); (str "men", str "man");
    (str "women", str "woman"); (str "people", str "person");
    (str "oxen", str "ox"); (str "sheep", str "sheep");
    (str "deer", str "deer"); (str "fish", str "fish");
    (str "species", str "species"); (str "series", str "series") ].

(** Lines 235-243: the [ves] rule; [None] when it falls through. *)
Definition ves_rule (word : pystr) : option pystr :=
  if endswith word (str "ves") then
    if mem (drop_last 3 word ++ str "f")
         [str "leaf"; str "loaf"; str "thief"; str "shelf"; str "knife";
          str "life"; str "wife"]
    then Some (drop_last 3 word ++ str "f")
    else if str_eqb word (str "wolves") then Some (str "wolf")
    else if str_eqb word (str "calves") then Some (str "calf")
    else if str_eqb word (str "halves") then Some (str "half")
    else None
  else None.

(** Lines 209-259, after [word = word.lower().strip()]. *)
Definition singular_of (word : pystr) : pystr :=
  match lookup word irregular_plurals with
  | Some s => s
  | None =>
      if endswith word (str "ies") && (3 <? length word)
      then drop_last 3 word ++ str "y"
      else
        match ves_rule word with
        | Some s => s
        | None =>
            if endswith word (str "es") && (2 <? length word)
               && (mem (slice_from_end word 3 2) [str "s"; str "x"; str "z"]
                   || mem (slice_from_end word 4 2)
                        [str "sh"; str "ch"; str "ss"])
            then drop_last 2 word
            else if endswith word (str "oes") && (3 <? length word)
            then drop_last 2 word
            else if endswith word (str "s") && (1 <? length word)
            then drop_last 1 word
            else word
        end
  end.

(** Lines 177-259.  The argument is a [str]. *)
Definition plural_to_singular (word : pystr) : pystr :=
  if negb (nonempty word) then word
  else singular_of (strip (lower word)).

Definition fruits : list pystr :=
  [ str "apple"; str "banana"; str "orange"; str "strawberry";
    str "blueberry"; str "raspberry"; str "mango"; str "pineapple";
    str "grape"; str "kiwi"; str "peach"; str "pear"; str "plum";
    str "cherry"; str "lemon"; str "lime"; str "avocado";
    str "pomegranate"; str "fig"; str "date" ].

Definition vegetables : list pystr :=
  [ str "carrot"; str "broccoli"; str "spinach"; str "tomato";
    str "cucumber"; str "lettuce"; str "onion"; str "garlic"; str "potato";
    str "sweet potato"; str "zucchini"; str "pepper"; str "eggplant";
    str "cauliflower"; str "cabbage"; str "kale"; str "mushroom";
    str "celery" ].

Definition products : list pystr :=
  [ str "vanilla"; str "sugar"; str "flour"; str "salt"; str "pepper";
    str "oil"; str "butter"; str "milk"; str "cream"; str "cheese";
    str "yogurt"; str "egg"; str "honey"; str "vinegar";
    str "baking powder"; str "baking soda"; str "yeast"; str "cinnamon";
    str "cocoa"; str "juice"; str "ice cream" ].

Definition foods : list pystr :=
  [ str "burgers"; str "hot dogs"; str "salads"; str "fries";
    str "ice cream" ].

(** Lines 262-306 *)
Definition is_fruit (item : pystr) : bool :=
  mem (plural_to_singular (strip item)) fruits.

(** Lines 309-357 *)
Definition is_vegetable (item : pystr) : bool :=
  mem (plural_to_singular (strip item)) vegetables.

(** Lines 360-407 *)
Definition is_product (item : pystr) : bool :=
  mem (plural_to_singular (strip item)) products.

(** Lines 410-447 *)
Definition is_food (item : pystr) : bool := mem (strip (lower item)) foods.

(** Python's order on strings: lexicographic on the code points. *)
Fixpoint str_compare (a b : pystr) : comparison :=
  match a, b with
  | [], [] => Eq
  | [], _ :: _ => Lt
  | _ :: _, [] => Gt
  | c :: a', d :: b' =>
      match N.compare (code c) (code d) with
      | Eq => str_compare a' b'
      | r => r
      end
  end.

Definition str_lt (a b : pystr) : Prop := str_compare a b = Lt.

Fixpoint insert_sorted (x : pystr) (l : list pystr) : list pystr :=
  match l with
  | [] => [x]
  | y :: l' =>
      match str_compare x y with
      | Lt => x :: l
      | Eq => l
      | Gt => y :: insert_sorted x l'
      end
  end.

(** [sorted(set(l))]: the distinct elements of [l] in increasing order. *)
Definition sorted_set (l : list pystr) : list pystr :=
  fold_right insert_sorted [] l.

(** Lines 480-481 *)
Definition is_ingredient (ingredient : pystr) : bool :=
  is_fruit ingredient || is_vegetable ingredient || is_product ingredient.

(** Lines 450-484 *)
Definition get_ingredients (item : pystr) : pystr :=
  let items :=
    sorted_set (map (fun x => strip (lower x))
                  (filter is_ingredient (split item))) in
  join (str ",") items.

End Lexicon.

(** ** Failures of the helpers around the tools

    The exception classes that [download_file], [transcribe_audio] and the
    runner of src/app.py tell apart: builtins, [requests.RequestException]
    and the two classes of [speech_recognition]. *)

Module Failure.

Inductive kind :=
| FileNotFoundError | ValueError | OSError | Exception
| RequestException                  (* requests.exceptions *)
| UnknownValueError | RequestError. (* speech_recognition *)

Record failure := mk_failure { kind_of : kind; text : pystr }.

Inductive outcome (A : Type) :=
| Done (a : A)
| Failed (f : failure).

Arguments Done {A} a.
Arguments Failed {A} f.

Definition is_request_exception (k : kind) : bool :=
  match k with RequestException => true | _ => false end.

End Failure.

(** ** src/tools/utils.py: [download_file] *)

Module Download.

Import Builtins Lexicon.

(** The regular files of the working directory, by path. *)
Definition filesystem := pystr -> option bytes.

Definition file_exists (fs : filesystem) (p : pystr) : bool :=
  match fs p with Some _ => true | None => false end.

Definition write_file (fs : filesystem) (p : pystr) (content : bytes)
  : filesystem :=
  fun q => if str_eqb q p then Some content else fs q.

(** [os.path.join(a, b)] on POSIX. *)
Definition path_join (a b : pystr) : pystr :=
  if startswith (str "/") b then b
  else match a with
       | [] => b
       | _ => if endswith a (str "/") then a ++ b else a ++ str "/" ++ b
       end.

(** What lies outside: the answer to [requests.get(url, timeout=30)]
    followed by [raise_for_status()], and whether creating the directory
    and writing the file at a path fails. *)
Record outside := mk_outside {
  get : pystr -> Failure.outcome bytes;
  store_fails : pystr -> option Failure.failure
}.

(** Lines 29-59.  The result is the file system afterwards and what the
    call returns or raises. *)
Definition download_file (o : outside) (fs : filesystem)
    (url filename : pystr) : filesystem * Failure.outcome pystr :=
  let file_path := path_join (str "downloaded_files") filename in
  if negb (file_exists fs file_path) then
    let attempt : filesystem * option Failure.failure :=
      match get o url with
      | Failure.Failed e => (fs, Some e)
      | Failure.Done content =>
          match store_fails o file_path with
          | Some e => (fs, Some e)
          | None => (write_file fs file_path content, None)
          end
      end in
    match snd attempt with
    | None => (fst attempt, Failure.Done file_path)
    | Some e =>
        if Failure.is_request_exception (Failure.kind_of e)
        then (fst attempt, Failure.Done file_path)
        else (fst attempt, Failure.Failed e)
    end
  else (fs, Failure.Done file_path).

(** A disk without files, and an outside that answers every request with
    [content] and lets every file be written. *)
Definition empty_disk : filesystem := fun _ => None.

Definition answering (content : bytes) : outside :=
  mk_outside (fun _ => Failure.Done content) (fun _ => None).

End Download.

(** ** src/tools/audio.py *)

Module Audio.

Import Builtins Lexicon.

(** [s.replace(old, new)]: the occurrences of [old] from the left, without
    overlap.  [skip] counts the characters of an occurrence still to pass. *)
Fixpoint replace_aux (old new : pystr) (skip : nat) (s : pystr) : pystr :=
  match s with
  | [] => []
  | c :: s' =>
      match skip with
      | S k => replace_aux old new k s'
      | 0 => if startswith old s
             then new ++ replace_aux old new (length old - 1) s'
             else c :: replace_aux old new 0 s'
      end
  end.

Definition replace (old new s : pystr) : pystr :=
  match old with
  | [] => new ++ flat_map (fun c => c :: new) s
  | _ => replace_aux old new 0 s
  end.

(** What the call does to the files. *)
Inductive event :=
| Exported (p : pystr)    (* [audio.export(p, format="wav")] wrote [p] *)
| Removed (p : pystr).    (* [os.remove(p)] deleted [p] *)

Section Studio.

Variables audio audio_data : Type.

(** The libraries the tool drives: [AudioSegment.from_mp3];
    [audio.export]; opening the WAV file, adjusting for noise and
    recording (lines 38-42); [os.remove]; [recognize_google]. *)
Record studio := mk_studio {
  path_exists : pystr -> bool;
  from_mp3 : pystr -> Failure.outcome audio;
  export_fails : audio -> pystr -> option Failure.failure;
  record : pystr -> Failure.outcome audio_data;
  remove_fails : pystr -> option Failure.failure;
  recognize_google : audio_data -> Failure.outcome pystr
}.

(** Line 34 *)
Definition wav_path_of (mp3_path : pystr) : pystr :=
  replace (str ".mp3") (str ".wav") mp3_path.

(** Lines 33-49: the body of the [try]. *)
Definition transcribe_body (st : studio) (mp3_path : pystr)
  : list event * Failure.outcome pystr :=
  match from_mp3 st mp3_path with
  | Failure.Failed e => ([], Failure.Failed e)
  | Failure.Done audio =>
      let wav_path := wav_path_of mp3_path in
      match export_fails st audio wav_path with
      | Some e => ([], Failure.Failed e)
      | None =>
          match record st wav_path with
          | Failure.Failed e => ([Exported wav_path], Failure.Failed e)
          | Failure.Done audio_data =>
              match remove_fails st wav_path with
              | Some e => ([Exported wav_path], Failure.Failed e)
              | None =>
                  ([Exported wav_path; Removed wav_path],
                   recognize_google st audio_data)
              end
          end
      end
  end.

(** Lines 24-56 *)
Definition transcribe_audio (st : studio) (mp3_path : pystr)
  : list event * Failure.outcome pystr :=
  if negb (path_exists st mp3_path)
  then ([], Failure.Failed
              (Failure.mk_failure Failure.FileNotFoundError
                 (str "The file " ++ mp3_path ++ str " does not exist.")))
  else
    let body := transcribe_body st mp3_path in
    (fst body,
     match snd body with
     | Failure.Done text => Failure.Done text
     | Failure.Failed e =>
         match Failure.kind_of e with
         | Failure.UnknownValueError =>
             Failure.Failed
               (Failure.mk_failure Failure.ValueError
                  (str "Could not understand the audio."))
         | Failure.RequestError =>
             Failure.Failed
               (Failure.mk_failure Failure.ValueError
                  (str "Could not process audio; " ++ Failure.text e))
         | _ =>
             Failure.Failed
               (Failure.mk_failure Failure.Exception
                  (str "An error occurred during transcription: "
                   ++ Failure.text e))
         end
     end).

End Studio.

End Audio.

(** ** src/app.py *)

Module App.

Import Builtins Lexicon.

Definition DEFAULT_API_URL : pystr :=
  str "https://agents-course-unit4-scoring.hf.space".

(** One item of the fetched list, as far as it is read: [task_id],
    [question] and [file_name], each possibly missing. *)
Record item := mk_item {
  task_id : option pystr;
  question : option pystr;
  file_name : option pystr
}.

(** How an f-string prints a value that may be [None]. *)
Definition fmt (x : option pystr) : pystr :=
  match x with Some s => s | None => str "None" end.

Record submission := mk_submission {
  username : pystr;
  agent_code : pystr;
  answers : list (option pystr * pystr)   (* task_id, submitted_answer *)
}.

Record score := mk_score {
  score_field : option pystr;
  correct_count : option pystr;
  total_attempted : option pystr
}.

(** What [run_and_submit_all] depends on.  [download] and [agent] are
    indexed by the position of the item they are called for. *)
Record services := mk_services {
  init_fails : option Failure.failure;                  (* lines 31-38 *)
  fetch : Failure.outcome (list item);                  (* lines 47-49 *)
  download : nat -> pystr -> pystr -> Failure.outcome pystr;
  agent : nat -> pystr -> option pystr -> Failure.outcome pystr;
  space_id : option pystr;                              (* SPACE_ID *)
  post : submission -> Failure.outcome score            (* lines 83-85 *)
}.

(** Lines 59-66: the body of the [try] for the item at position [i]. *)
Definition answer_item (sv : services) (i : nat) (it : item)
  : Failure.outcome pystr :=
  let tid := task_id it in
  let text := match question it with Some t => t | None => [] end in
  let downloaded : Failure.outcome (option pystr) :=
    match file_name it with
    | Some (c :: name) =>
        match download sv i (DEFAULT_API_URL ++ str "/files/" ++ fmt tid)
                (c :: name) with
        | Failure.Done p => Failure.Done (Some p)
        | Failure.Failed e => Failure.Failed e
        end
    | _ => Failure.Done None
    end in
  match downloaded with
  | Failure.Done path => agent sv i text path
  | Failure.Failed e => Failure.Failed e
  end.

(** Lines 56-72: the loop, with its two lists. *)
Fixpoint answer_all (sv : services) (i : nat) (items : list item)
    (results answers_payload : list (option pystr * pystr))
  : list (option pystr * pystr) * list (option pystr * pystr) :=
  match items with
  | [] => (results, answers_payload)
  | it :: rest =>
      match answer_item sv i it with
      | Failure.Done ans =>
          answer_all sv (S i) rest
            (results ++ [(task_id it, ans)])
            (answers_payload ++ [(task_id it, ans)])
      | Failure.Failed e =>
          answer_all sv (S i) rest
            (results ++ [(task_id it, str "ERROR: " ++ Failure.text e)])
            answers_payload
      end
  end.

(** Lines 23-96.  [profile] is the user name of the logged-in profile. *)
Definition run_and_submit_all (sv : services) (profile : option pystr)
  : pystr * option (list (option pystr * pystr)) :=
  match profile with
  | None => (str "Please login to Hugging Face.", None)
  | Some name =>
      let username := strip name in
      match init_fails sv with
      | Some e => (str "Initialization failed: " ++ Failure.text e, None)
      | None =>
          match fetch sv with
          | Failure.Failed e => (str "Fetch error: " ++ Failure.text e, None)
          | Failure.Done questions =>
              let run := answer_all sv 0 questions [] [] in
              let results := fst run in
              let answers_payload := snd run in
              let submission :=
                mk_submission username
                  (str "https://huggingface.co/spaces/" ++ fmt (space_id sv)
                   ++ str "/tree/main")
                  answers_payload in
              let status :=
                match post sv submission with
                | Failure.Done data =>
                    str "Submission Successful: " ++ fmt (score_field data)
                    ++ str "% (" ++ fmt (correct_count data) ++ str "/"
                    ++ fmt (total_attempted data) ++ str ")"
                | Failure.Failed e => str "Submit error: " ++ Failure.text e
                end in
              (status, Some results)
          end
      end
  end.

(** The row of the table and the entry of the payload that the item at
    position [i] accounts for. *)
Definition row_of (sv : services) (p : nat * item) : option pystr * pystr :=
  (task_id (snd p),
   match answer_item sv (fst p) (snd p) with
   | Failure.Done ans => ans
   | Failure.Failed e => str "ERROR: " ++ Failure.text e
   end).

Definition payload_of (sv : services) (p : nat * item)
  : list (option pystr * pystr) :=
  match answer_item sv (fst p) (snd p) with
  | Failure.Done ans => [(task_id (snd p), ans)]
  | Failure.Failed _ => []
  end.

(** The items with their positions, counted from [i]. *)
Definition numbered (i : nat) (items : list item) : list (nat * item) :=
  combine (seq i (length items)) items.

(** Lines 86-93 *)
Definition status_of (r : Failure.outcome score) : pystr :=
  match r with
  | Failure.Done data =>
      str "Submission Successful: " ++ fmt (score_field data)
      ++ str "% (" ++ fmt (correct_count data) ++ str "/"
      ++ fmt (total_attempted data) ++ str ")"
  | Failure.Failed e => str "Submit error: " ++ Failure.text e
  end.

(** Services in which nothing but the agent's answer to the second item
    fails; items 0, 1, 2 carry the task ids a, b, c and no file. *)
Definition sample_items : list item :=
  [ mk_item (Some (str "a")) (Some (str "q1")) None;
    mk_item (Some (str "b")) (Some (str "q2")) None;
    mk_item (Some (str "c")) (Some (str "q3")) None ].

Definition sample_services : services :=
  mk_services None (Failure.Done sample_items)
    (fun _ _ name => Failure.Done name)
    (fun i text _ =>
       if i =? 1
       then Failure.Failed (Failure.mk_failure Failure.ValueError (str "boom"))
       else Failure.Done (str "answer to " ++ text))
    (Some (str "me/space"))
    (fun s => Failure.Failed
                (Failure.mk_failure Failure.RequestException (str "offline"))).

End App.

(** * Properties *)

Unset Implicit Arguments.

Import Builtins World Utils Agent Web Youtube.

(** ** Strings *)

Section TextFacts.

Lemma startswith_app (p s : pystr) :
  startswith p s = true <-> exists post, s = p ++ post.
Proof.
  revert s; induction p as [|c p IH]; intros s; simpl.
  - split; [intros _; now exists s | reflexivity].
  - destruct s as [|d s]; simpl.
    + split; [discriminate | intros [post H]; discriminate].
    + rewrite andb_true_iff, Ascii.eqb_eq, IH. split.
      * intros [-> [post ->]]. now exists post.
      * intros [post H]. injection H as -> ->. split; [reflexivity | now exists post].
Qed.

Lemma find_from_some (p s : pystr) (i j : nat) :
  find_from i p s = Some j ->
  i <= j /\ j - i <= length s /\ startswith p (skipn (j - i) s) = true /\
  forall k, k < j - i -> startswith p (skipn k s) = false.
Proof.
  revert i; induction s as [|d s IH]; intros i; simpl.
  - destruct (startswith p []) eqn:E; [|discriminate].
    intros [= <-]. rewrite Nat.sub_diag. simpl. repeat split; auto; lia.
  - destruct (startswith p (d :: s)) eqn:E.
    + intros [= <-]. rewrite Nat.sub_diag. simpl. repeat split; auto; lia.
    + intros H. apply IH in H. destruct H as (Hij & Hlen & Hst & Hmin).
      replace (j - i) with (S (j - S i)) by lia. simpl.
      repeat split; try lia; auto.
      intros [|k] Hk; simpl; [exact E | apply Hmin; lia].
Qed.

Lemma find_from_none (p s : pystr) (i : nat) :
  find_from i p s = None ->
  forall k, k <= length s -> startswith p (skipn k s) = false.
Proof.
  revert i; induction s as [|d s IH]; intros i; simpl.
  - destruct (startswith p []) eqn:E; [discriminate|].
    intros _ [|k] Hk; simpl; [exact E | lia].
  - destruct (startswith p (d :: s)) eqn:E; [discriminate|].
    intros H [|k] Hk; simpl; [exact E | apply (IH _ H); lia].
Qed.

Lemma occurs_offset (p s pre post : pystr) :
  s = pre ++ p ++ post ->
  length pre <= length s /\ startswith p (skipn (length pre) s) = true.
Proof.
  intros ->. split.
  - rewrite length_app. lia.
  - rewrite skipn_app, Nat.sub_diag, skipn_all. simpl.
    apply startswith_app. now exists post.
Qed.

(** [find] returns the offset of the first occurrence. *)
Lemma find_first (p s : pystr) (i : nat) :
  find p s = Some i ->
  exists post, s = firstn i s ++ p ++ post /\ i <= length s /\
    forall pre' post', s = pre' ++ p ++ post' -> i <= length pre'.
Proof.
  unfold find. intros H. apply find_from_some in H.
  rewrite Nat.sub_0_r in H. destruct H as (_ & Hlen & Hst & Hmin).
  apply startswith_app in Hst. destruct Hst as [post Hpost].
  exists post. split; [|split; [exact Hlen|]].
  - rewrite <- Hpost. symmetry. apply firstn_skipn.
  - intros pre' post' E. apply occurs_offset in E. destruct E as [_ E].
    destruct (Nat.lt_ge_cases (length pre') i) as [Hlt|]; [|assumption].
    rewrite (Hmin _ Hlt) in E. discriminate.
Qed.

Lemma find_none (p s : pystr) : find p s = None -> ~ Occurs p s.
Proof.
  unfold find. intros H [pre [post E]]. apply occurs_offset in E.
  destruct E as [Hle E]. rewrite (find_from_none _ _ _ H _ Hle) in E.
  discriminate.
Qed.

(** The [in] operator decides substring occurrence. *)
Lemma contains_occurs (p s : pystr) : contains p s = true <-> Occurs p s.
Proof.
  unfold contains. destruct (find p s) as [i|] eqn:E.
  - split; [intros _ | reflexivity].
    destruct (find_first _ _ _ E) as [post [H _]]. now exists (firstn i s), post.
  - split; [discriminate | intros H; now apply find_none in E].
Qed.

Lemma firstn_skipn_add (A : Type) (a b : nat) (l : list A) :
  firstn a l ++ firstn b (skipn a l) = firstn (a + b) l.
Proof.
  revert l; induction a as [|a IH]; intros l; simpl; [reflexivity|].
  destruct l as [|x l]; simpl.
  - now rewrite firstn_nil.
  - now rewrite IH.
Qed.

Lemma fold_append_map (A B : Type) (f : A -> B) (l : list A) (acc : list B) :
  fold_left (fun acc i => acc ++ [f i]) l acc = acc ++ map f l.
Proof.
  revert acc; induction l as [|x l IH]; intros acc; simpl.
  - now rewrite app_nil_r.
  - now rewrite IH, <- app_assoc.
Qed.

Lemma fold_append_filter (A : Type) (f : A -> bool) (l acc : list A) :
  fold_left (fun acc x => if f x then acc ++ [x] else acc) l acc
  = acc ++ filter f l.
Proof.
  revert acc; induction l as [|x l IH]; intros acc; simpl.
  - now rewrite app_nil_r.
  - rewrite IH. destruct (f x); [now rewrite <- app_assoc | reflexivity].
Qed.

End TextFacts.

(** ** The partition step of [optimized_web_search] *)

Section Partition.

Lemma ceil_div_zero (b : nat) : 0 < b -> ceil_div 0 b = 0.
Proof. intros Hb. unfold ceil_div. apply Nat.div_small. lia. Qed.

Lemma ceil_div_step (a b : nat) :
  0 < a -> 0 < b -> ceil_div a b = S (ceil_div (a - b) b).
Proof.
  intros Ha Hb. unfold ceil_div.
  destruct (Nat.le_gt_cases a b) as [Hle|Hgt].
  - replace (a - b) with 0 by lia.
    rewrite (Nat.div_small (0 + b - 1) b) by lia.
    symmetry. apply (Nat.div_unique _ _ _ (a - 1)); lia.
  - replace (a + b - 1) with ((a - b + b - 1) + 1 * b) by lia.
    rewrite Nat.div_add by lia. lia.
Qed.

(** [ceil_div a b] is the least [n] with [a <= n * b]. *)
Lemma ceil_div_spec (a b : nat) :
  0 < b -> a <= ceil_div a b * b /\ ceil_div a b * b < a + b.
Proof.
  intros Hb. unfold ceil_div.
  pose proof (Nat.div_mod_eq (a + b - 1) b) as E.
  pose proof (Nat.mod_upper_bound (a + b - 1) b ltac:(lia)) as M.
  nia.
Qed.

Lemma range_step_seq (step : nat) (Hs : 0 < step) (stop fuel i : nat) :
  stop - i <= fuel ->
  range_step fuel i stop step
  = map (fun j => i + j * step) (seq 0 (ceil_div (stop - i) step)).
Proof.
  revert i; induction fuel as [|fuel IH]; intros i Hf; simpl.
  - replace (stop - i) with 0 by lia. now rewrite ceil_div_zero.
  - destruct (i <? stop) eqn:E.
    + apply Nat.ltb_lt in E.
      rewrite (ceil_div_step (stop - i) step) by lia.
      rewrite IH by lia. simpl. rewrite Nat.add_0_r. f_equal.
      rewrite <- seq_shift, map_map.
      replace (stop - i - step) with (stop - (i + step)) by lia.
      apply map_ext. intros j. simpl. lia.
    + apply Nat.ltb_ge in E. replace (stop - i) with 0 by lia.
      now rewrite ceil_div_zero.
Qed.

Lemma concat_slices (c : pystr) (k n : nat) :
  concat (map (fun j => slice c (j * k) (j * k + k)) (seq 0 n))
  = firstn (n * k) c.
Proof.
  induction n as [|n IH]; [reflexivity|].
  rewrite seq_S, map_app, concat_app, IH. simpl. rewrite app_nil_r.
  unfold slice. replace (n * k + k - n * k) with k by lia.
  rewrite firstn_skipn_add. f_equal. lia.
Qed.

Lemma slice_length (c : pystr) (i k : nat) :
  length (slice c i (i + k)) = Nat.min k (length c - i).
Proof.
  unfold slice. replace (i + k - i) with k by lia.
  now rewrite length_firstn, length_skipn.
Qed.

(** The partition loop, for a positive chunk size, as one expression. *)
Lemma make_batches_eq (c : pystr) (k : Z) :
  (0 < k)%Z ->
  make_batches c k
  = Ret (map (fun j => slice c (j * Z.to_nat k) (j * Z.to_nat k + Z.to_nat k))
             (seq 0 (ceil_div (length c) (Z.to_nat k)))).
Proof.
  intros Hk. unfold make_batches, py_range.
  destruct (k =? 0)%Z eqn:E0; [apply Z.eqb_eq in E0; lia|].
  destruct (k <? 0)%Z eqn:E1; [apply Z.ltb_lt in E1; lia|].
  simpl. rewrite fold_append_map. simpl.
  rewrite range_step_seq by lia. rewrite map_map, Nat.sub_0_r. reflexivity.
Qed.

End Partition.

(** C2.  For every content [c] and chunk size [k > 0] the partition loop
    of [optimized_web_search] ends with a list of chunks such that: their
    concatenation is [c]; there are [ceil(len(c)/k)] of them; the [i]-th
    chunk is [c[i*k : i*k+k]], so the chunks are contiguous and do not
    overlap; every chunk but the last has exactly [k] characters and the
    last has between 1 and [k]. *)
Theorem partition_tiles_content (c : pystr) (k : Z) (Hk : (0 < k)%Z) :
  exists batches,
    make_batches c k = Ret batches /\
    concat batches = c /\
    length batches = ceil_div (length c) (Z.to_nat k) /\
    (length c <= length batches * Z.to_nat k < length c + Z.to_nat k) /\
    (forall i, i < length batches ->
       nth i batches [] = slice c (i * Z.to_nat k) (i * Z.to_nat k + Z.to_nat k)) /\
    (forall i, S i < length batches ->
       length (nth i batches []) = Z.to_nat k) /\
    (forall i, S i = length batches ->
       1 <= length (nth i batches []) <= Z.to_nat k).
Proof.
  set (K := Z.to_nat k). assert (HK : 0 < K) by (unfold K; lia).
  set (n := ceil_div (length c) K).
  pose proof (ceil_div_spec (length c) K HK) as [Hlo Hhi]. fold n in Hlo, Hhi.
  exists (map (fun j => slice c (j * K) (j * K + K)) (seq 0 n)).
  assert (Hlen : length (map (fun j => slice c (j * K) (j * K + K)) (seq 0 n)) = n)
    by now rewrite length_map, length_seq.
  assert (Hnth : forall i, i < n ->
            nth i (map (fun j => slice c (j * K) (j * K + K)) (seq 0 n)) []
            = slice c (i * K) (i * K + K)).
  { intros i Hi.
    transitivity (nth i (map (fun j => slice c (j * K) (j * K + K)) (seq 0 n))
                    (slice c (0 * K) (0 * K + K))).
    - apply nth_indep. rewrite Hlen. exact Hi.
    - rewrite (map_nth (fun j => slice c (j * K) (j * K + K))).
      now rewrite seq_nth by assumption. }
  split; [now apply make_batches_eq|].
  split; [rewrite concat_slices; apply firstn_all2; exact Hlo|].
  rewrite Hlen. repeat split; try assumption.
  - intros i Hi. rewrite Hnth, slice_length by lia. nia.
  - rewrite Hnth, slice_length by lia. nia.
  - rewrite Hnth, slice_length by lia. lia.
Qed.

Lemma partition_tiles_content_witness :
  exists batches,
    make_batches (str "abcdefgh") 3 = Ret batches /\
    concat batches = str "abcdefgh" /\ length batches = 3.
Proof.
  destruct (partition_tiles_content (str "abcdefgh") 3 eq_refl)
    as (b & H1 & H2 & H3 & _).
  exists b. repeat split; assumption.
Defined.

(** ** The filter step of [optimized_web_search] *)

Section Filter.

Lemma filter_batches_eq (K batches : list pystr) :
  filter_batches K batches = filter (keep_batch K) batches.
Proof. unfold filter_batches. now rewrite fold_append_filter. Qed.

Lemma keep_batch_occurs (K : list pystr) (b : pystr) :
  keep_batch K b = true <->
  exists w, In w K /\ Occurs (lower w) (lower b).
Proof.
  unfold keep_batch. rewrite existsb_exists.
  split; intros [w [Hin H]]; exists w; split; trivial;
    now apply contains_occurs.
Qed.

Lemma make_batches_nonempty (c : pystr) (k : Z) (batches : list pystr) :
  (0 < k)%Z -> make_batches c k = Ret batches ->
  Forall (fun b => b <> []) batches.
Proof.
  intros Hk H. rewrite make_batches_eq in H by assumption.
  injection H as <-. apply Forall_forall. intros b Hb.
  apply in_map_iff in Hb. destruct Hb as [j [<- Hj]].
  apply in_seq in Hj.
  pose proof (ceil_div_spec (length c) (Z.to_nat k) ltac:(lia)) as [_ Hhi].
  intros E. apply (f_equal (@length ascii)) in E.
  rewrite slice_length in E. simpl in E. nia.
Qed.

Lemma join_nonempty (sep : pystr) (parts : list pystr) :
  parts <> [] -> Forall (fun b => b <> []) parts -> join sep parts <> [].
Proof.
  destruct parts as [|p rest]; [congruence|].
  intros _ H. inversion H as [|? ? Hp _]; subst.
  destruct p as [|a p]; [congruence|].
  simpl. destruct rest; discriminate.
Qed.

Lemma Forall_filter (A : Type) (P : A -> Prop) (f : A -> bool) (l : list A) :
  Forall P l -> Forall P (filter f l).
Proof.
  intros H. apply Forall_forall. intros x Hx. apply filter_In in Hx.
  rewrite Forall_forall in H. now apply H.
Qed.

End Filter.

(** C3.  For every list of chunks and every keyword list [K]: the filter
    loop retains exactly the chunks in which some keyword occurs as a
    substring once both are lowercased, in their original order (the result
    is the input with the other chunks removed); and whenever a chunk is
    retained, [optimized_web_search] returns the retained chunks joined by a
    blank line. *)
Theorem filter_retains_keyword_chunks (K batches : list pystr) :
  filter_batches K batches = filter (keep_batch K) batches /\
  (forall b, In b (filter_batches K batches) <->
             In b batches /\
             exists w, In w K /\ Occurs (lower w) (lower b)) /\
  (forall repr_list results k all_batches,
     is_empty (Some results) = false -> (0 < k)%Z ->
     make_batches (flatten results) k = Ret all_batches ->
     filter_batches K all_batches <> [] ->
     optimized_web_search repr_list (Ret (Some results)) K k
     = Ret (join (str (String "010" (String "010" "")))
              (filter_batches K all_batches))).
Proof.
  split; [apply filter_batches_eq|]. split.
  - intros b. rewrite filter_batches_eq, filter_In, keep_batch_occurs.
    reflexivity.
  - intros repr_list results k all_batches Hne Hk Hb Hkept.
    unfold optimized_web_search. cbn [bind].
    rewrite Hne, Hb. cbn [bind].
    pose proof (make_batches_nonempty _ _ _ Hk Hb) as Hall.
    assert (Hj : join (str (String "010" (String "010" "")))
                   (filter_batches K all_batches) <> []).
    { apply join_nonempty; [assumption|].
      rewrite filter_batches_eq. now apply Forall_filter. }
    destruct (join _ (filter_batches K all_batches)); [congruence|reflexivity].
Qed.

Lemma filter_retains_keyword_chunks_witness :
  filter_batches [str "CD"; str "zz"] [str "abc"; str "xcdx"; str "ZZtop"]
  = [str "xcdx"; str "ZZtop"] /\
  optimized_web_search (fun _ => []) (Ret (Some (Flat (str "abcxcdZZt"))))
    [str "CD"; str "zz"] 3
  = Ret (str ("xcd" ++ String "010" (String "010" "ZZt"))).
Proof.
  destruct (filter_retains_keyword_chunks [str "CD"; str "zz"]
              [str "abc"; str "xcdx"; str "ZZtop"]) as [H1 _].
  destruct (filter_retains_keyword_chunks [str "CD"; str "zz"] []) as (_ & _ & H3).
  split.
  - rewrite H1. vm_compute. reflexivity.
  - rewrite (H3 (fun _ => []) (Flat (str "abcxcdZZt")) 3%Z
               [str "abc"; str "xcd"; str "ZZt"]).
    + vm_compute. reflexivity.
    + reflexivity.
    + reflexivity.
    + vm_compute. reflexivity.
    + vm_compute. discriminate.
Defined.

(** ** The retry loop *)

Section RetryFacts.

Variable A : Type.
Variable target : nat -> Backoff.call A.
Variable max_tries : nat.
Variable max_time : Q.

Let loop := Backoff.retry_loop target max_tries max_time.

Lemma push_result (t : Q) (s : option Q) (r : Backoff.run A) :
  Backoff.result (Backoff.push t s r) = Backoff.result r.
Proof. reflexivity. Qed.

Lemma push_tries (t : Q) (s : option Q) (r : Backoff.run A) :
  Backoff.tries_made (Backoff.push t s r) = Backoff.tries_made r.
Proof. reflexivity. Qed.

Lemma retry_loop_S (fuel tries : nat) (now : Q) :
  loop (S fuel) tries now
  = match Backoff.outcome (target (S tries)) with
    | Ret ret => Backoff.mk_run (Some (Ret ret)) (S tries) [now] []
    | Raise e =>
        if (S tries =? max_tries) || Qle_bool max_time now
        then Backoff.mk_run (Some (Raise e)) (S tries) [now] []
        else Backoff.push now
               (Some (Backoff.next_wait max_time (S tries - 1)
                        (Backoff.draw (target (S tries))) now))
               (loop fuel (S tries)
                  (now + Backoff.duration (target (S tries))
                   + Backoff.next_wait max_time (S tries - 1)
                       (Backoff.draw (target (S tries))) now)%Q)
    end.
Proof. reflexivity. Qed.

(** With enough fuel the loop reaches a result. *)
Lemma retry_loop_total (fuel tries : nat) (now : Q) :
  tries < max_tries -> max_tries - tries <= fuel ->
  exists r, Backoff.result (loop fuel tries now) = Some r.
Proof.
  revert tries now; induction fuel as [|fuel IH]; intros tries now Hlt Hf.
  - lia.
  - rewrite retry_loop_S.
    destruct (Backoff.outcome (target (S tries))) as [ret|e].
    + eexists; reflexivity.
    + destruct (S tries =? max_tries) eqn:E; simpl.
      * eexists; reflexivity.
      * apply Nat.eqb_neq in E.
        destruct (Qle_bool max_time now); [eexists; reflexivity|].
        rewrite ?push_result. apply IH; lia.
Qed.

(** The result is the outcome of the last call made; every call before it
    raised; the number of calls stays within [max_tries]. *)
Lemma retry_loop_last (fuel tries : nat) (now : Q) (r : py A) :
  tries < max_tries ->
  Backoff.result (loop fuel tries now) = Some r ->
  let n := Backoff.tries_made (loop fuel tries now) in
  tries < n /\ n <= max_tries /\
  r = Backoff.outcome (target n) /\
  forall m, tries < m < n -> raises (Backoff.outcome (target m)).
Proof.
  revert tries now; induction fuel as [|fuel IH]; intros tries now Hlt.
  - discriminate.
  - cbv zeta. rewrite retry_loop_S.
    destruct (Backoff.outcome (target (S tries))) as [ret|e] eqn:Eo.
    + simpl. intros [= <-]. repeat split; try lia. now rewrite Eo.
    + destruct (S tries =? max_tries) eqn:E; simpl.
      * intros [= <-]. repeat split; try lia. now rewrite Eo.
      * apply Nat.eqb_neq in E.
        destruct (Qle_bool max_time now); simpl.
        { intros [= <-]. repeat split; try lia. now rewrite Eo. }
        rewrite ?push_result, ?push_tries. intros H.
        apply IH in H; [|lia]. destruct H as (H1 & H2 & H3 & H4).
        repeat split; try lia; try assumption.
        intros m Hm. destruct (Nat.eq_dec m (S tries)) as [->|Hne].
        -- exists e. exact Eo.
        -- apply H4. lia.
Qed.








End RetryFacts.

(** ** [load_youtube] *)

Section YoutubeFacts.

Lemma loader_retrying_result (p : provider) :
  exists n, 1 <= n <= max_tries /\
    _loader_retrying p = Backoff.outcome (loader_calls p n) /\
    forall m, 1 <= m < n -> raises (Backoff.outcome (loader_calls p m)).
Proof.
  unfold _loader_retrying, Backoff.on_exception, Backoff.on_exception_run.
  destruct (retry_loop_total _ (loader_calls p) max_tries max_time
              max_tries 0 0%Q) as [r Hr]; [unfold max_tries; lia | lia |].
  rewrite Hr.
  destruct (retry_loop_last _ (loader_calls p) max_tries max_time
              max_tries 0 0%Q r) as (H1 & H2 & H3 & H4);
    [unfold max_tries; lia | exact Hr |].
  eexists. split; [split; [exact H1 | exact H2]|]. split; [exact H3|].
  intros m Hm. apply H4. lia.
Qed.

Lemma loader_ret (load : py (list pystr)) (content : pystr) :
  _loader load = Ret content ->
  exists t rest, load = Ret (t :: rest) /\ content = lower t.
Proof.
  unfold _loader. destruct load as [[|t rest]|e]; simpl; try discriminate.
  intros [= <-]. now exists t, rest.
Qed.

Lemma seek_found (ph content : pystr) :
  Occurs ph content ->
  exists pre post, content = pre ++ ph ++ post /\
    (forall pre' post', content = pre' ++ ph ++ post' ->
                        length pre <= length pre') /\
    seek ph content = Ret (ph ++ post).
Proof.
  intros H. unfold seek, index. apply contains_occurs in H. rewrite H.
  unfold contains in H. destruct (find ph content) as [i|] eqn:E;
    [|discriminate].
  destruct (find_first _ _ _ E) as (post & Hs & Hi & Hmin).
  exists (firstn i content), post. split; [exact Hs|]. split.
  - intros pre' post' E'. rewrite length_firstn.
    pose proof (Hmin _ _ E'). lia.
  - simpl. f_equal. unfold slice.
    rewrite firstn_all2 by (rewrite length_skipn; lia).
    rewrite Hs at 1. rewrite skipn_app, length_firstn.
    replace (i - Nat.min i (length content)) with 0 by lia.
    rewrite skipn_all2 by (rewrite length_firstn; lia). reflexivity.
Qed.

Lemma seek_absent (ph content : pystr) :
  ~ Occurs ph content -> seek ph content = Ret content.
Proof.
  intros H. unfold seek. destruct (contains ph content) eqn:E;
    [|reflexivity].
  apply contains_occurs in E. contradiction.
Qed.

Lemma normalize_phrase_eq (phrase : pystr) :
  normalize_phrase phrase
  = lower (filter (fun c => negb (Ascii.eqb c "."%char || Ascii.eqb c "?"%char))
             phrase).
Proof.
  unfold normalize_phrase, remove_char. f_equal.
  induction phrase as [|c s IH]; [reflexivity|]. simpl.
  destruct (Ascii.eqb c "."%char) eqn:E1; simpl.
  - exact IH.
  - destruct (Ascii.eqb c "?"%char); simpl; [exact IH | now rewrite IH].
Qed.

End YoutubeFacts.

(** C4, as amended.  When the loader comes back with a transcript,
    [load_youtube] works on the lowercased transcript and on the phrase
    lowercased with every period and question mark removed.  If that phrase
    occurs, the result is the lowercased transcript from the first
    occurrence of the phrase to its end; if it does not occur, the result is
    the whole lowercased transcript. *)
Theorem load_youtube_seeks_in_lowered_transcript
    (p : provider) (phrase content : pystr)
    (Hload : _loader_retrying p = Ret content) :
  let ph := normalize_phrase phrase in
  (exists n t rest, 1 <= n <= max_tries /\
     Backoff.outcome (p n) = Ret (t :: rest) /\ content = lower t) /\
  ph = lower (filter (fun c => negb (Ascii.eqb c "."%char
                                     || Ascii.eqb c "?"%char)) phrase) /\
  (Occurs ph content ->
     exists pre post, content = pre ++ ph ++ post /\
       (forall pre' post', content = pre' ++ ph ++ post' ->
                           length pre <= length pre') /\
       load_youtube p phrase = Ret (ph ++ post)) /\
  (~ Occurs ph content -> load_youtube p phrase = Ret content).
Proof.
  intros ph. split; [|split; [apply normalize_phrase_eq|split]].
  - destruct (loader_retrying_result p) as (n & Hn & Hr & _).
    rewrite Hload in Hr. symmetry in Hr. apply loader_ret in Hr.
    destruct Hr as (t & rest & Ho & Hc). now exists n, t, rest.
  - intros H. destruct (seek_found _ _ H) as (pre & post & H1 & H2 & H3).
    exists pre, post. repeat split; try assumption.
    unfold load_youtube. rewrite Hload. exact H3.
  - intros H. unfold load_youtube. rewrite Hload. now apply seek_absent.
Qed.

Lemma load_youtube_seeks_in_lowered_transcript_witness :
  (exists post,
     load_youtube (always_loads [str "Say HELLO World. Now"])
       (str "Hello? World.")
     = Ret (str "hello world" ++ post)) /\
  load_youtube (always_loads [str "Say HELLO"]) (str "xyz")
  = Ret (str "say hello").
Proof.
  split.
  - destruct (load_youtube_seeks_in_lowered_transcript
                (always_loads [str "Say HELLO World. Now"])
                (str "Hello? World.") (str "say hello world. now") eq_refl)
      as (_ & _ & H & _).
    destruct H as (pre & post & H1 & H2 & H3).
    + now exists (str "say "), (str ". now").
    + exists post. exact H3.
  - destruct (load_youtube_seeks_in_lowered_transcript
                (always_loads [str "Say HELLO"])
                (str "xyz") (str "say hello") eq_refl)
      as (_ & _ & _ & H).
    apply H. intros Ho. apply contains_occurs in Ho. vm_compute in Ho.
    discriminate.
Defined.

(** C4 as stated fails: with an absent phrase the transcript does not come
    back unmodified, it comes back lowercased. *)
Lemma load_youtube_unmodified_counterexample :
  ~ (forall (p : provider) (phrase transcript : pystr) (rest : list pystr),
       Backoff.outcome (p 1) = Ret (transcript :: rest) ->
       ~ Occurs (normalize_phrase phrase) (lower transcript) ->
       load_youtube p phrase = Ret transcript).
Proof.
  intros H.
  specialize (H (always_loads [str "Hello"]) (str "xyz") (str "Hello") []
                eq_refl).
  assert (Habs : ~ Occurs (normalize_phrase (str "xyz")) (lower (str "Hello"))).
  { intros Ho. apply contains_occurs in Ho. vm_compute in Ho. discriminate. }
  specialize (H Habs). vm_compute in H. discriminate.
Qed.
(** ** [bytes.decode('utf-8')] *)

Ltac ncase :=
  repeat match goal with
    | |- context [(?a <? ?b)%N] => destruct (N.ltb_spec a b)
    | |- context [(?a <=? ?b)%N] => destruct (N.leb_spec a b)
    | |- context [(?a =? ?b)%N] => destruct (N.eqb_spec a b)
    | H : context [(?a <? ?b)%N] |- _ => destruct (N.ltb_spec a b)
    | H : context [(?a <=? ?b)%N] |- _ => destruct (N.leb_spec a b)
    | H : context [(?a =? ?b)%N] |- _ => destruct (N.eqb_spec a b)
    end.

Section Utf8Facts.

Lemma is_continuation_iff (b : byte) :
  is_continuation (Byte.to_N b) = true <-> in_range 128 191 b.
Proof.
  unfold is_continuation, in_range. split.
  - intros H. ncase; simpl in H; try discriminate; lia.
  - intros H. ncase; simpl; try reflexivity; lia.
Qed.

Lemma second_of_three_iff (b0 b1 : byte) :
  (224 <= Byte.to_N b0 < 240)%N ->
  (negb (is_continuation (Byte.to_N b1))
   || (if (Byte.to_N b1 <? 160)%N then (Byte.to_N b0 =? 224)%N
       else (Byte.to_N b0 =? 237)%N) = false
   <-> second_of_three b0 b1).
Proof.
  intros Hr. unfold is_continuation. split.
  - intros H.
    destruct (N.eq_dec (Byte.to_N b0) 224) as [E0|N0];
      [|destruct (N.eq_dec (Byte.to_N b0) 237) as [E1|N1]].
    + apply s3_E0; [exact E0|]. unfold in_range.
      ncase; simpl in H; try discriminate; lia.
    + apply s3_ED; [exact E1|]. unfold in_range.
      ncase; simpl in H; try discriminate; lia.
    + assert (in_range 128 191 b1)
        by (unfold in_range; ncase; simpl in H; try discriminate; lia).
      destruct (N.le_gt_cases (Byte.to_N b0) 236).
      * apply s3_E1_EC; [unfold in_range; lia | assumption].
      * apply s3_EE_EF; [unfold in_range; lia | assumption].
  - intros H. inversion H; subst; unfold in_range in *;
      ncase; simpl; try reflexivity; lia.
Qed.

Lemma second_of_four_iff (b0 b1 : byte) :
  (240 <= Byte.to_N b0 < 245)%N ->
  (negb (is_continuation (Byte.to_N b1))
   || (if (Byte.to_N b1 <? 144)%N then (Byte.to_N b0 =? 240)%N
       else (Byte.to_N b0 =? 244)%N) = false
   <-> second_of_four b0 b1).
Proof.
  intros Hr. unfold is_continuation. split.
  - intros H.
    destruct (N.eq_dec (Byte.to_N b0) 240) as [E0|N0];
      [|destruct (N.eq_dec (Byte.to_N b0) 244) as [E1|N1]].
    + apply s4_F0; [exact E0|]. unfold in_range.
      ncase; simpl in H; try discriminate; lia.
    + apply s4_F4; [exact E1|]. unfold in_range.
      ncase; simpl in H; try discriminate; lia.
    + apply s4_F1_F3; unfold in_range;
        ncase; simpl in H; try discriminate; lia.
  - intros H. inversion H; subst; unfold in_range in *;
      ncase; simpl; try reflexivity; lia.
Qed.

Lemma second_of_three_lead (b0 b1 : byte) :
  second_of_three b0 b1 -> (224 <= Byte.to_N b0 < 240)%N.
Proof. intros H; inversion H; subst; unfold in_range in *; lia. Qed.

Lemma second_of_four_lead (b0 b1 : byte) :
  second_of_four b0 b1 -> (240 <= Byte.to_N b0 < 245)%N.
Proof. intros H; inversion H; subst; unfold in_range in *; lia. Qed.

Lemma bind_returns (A B : Type) (m : py A) (f : A -> B) :
  returns (x <- m ;; Ret (f x)) <-> returns m.
Proof.
  destruct m as [a|e]; simpl; split; intros [x H]; try discriminate;
    eexists; reflexivity.
Qed.


Lemma utf8_decode_well_formed_aux (n : nat) :
  forall bs, length bs <= n ->
             returns (utf8_decode bs) -> well_formed_utf8 bs.
Proof.
  induction n as [|n IH]; intros bs Hn H.
  - destruct bs; [constructor | simpl in Hn; lia].
  - destruct bs as [|b0 r0]; [constructor|].
    cbn [utf8_decode] in H. simpl in Hn.
    destruct (N.ltb_spec (Byte.to_N b0) 128) as [L1|L1].
    { apply bind_returns in H. apply wf_one; [unfold in_range; lia|].
      apply IH; [lia | exact H]. }
    destruct (N.ltb_spec (Byte.to_N b0) 224) as [L2|L2].
    { destruct (N.ltb_spec (Byte.to_N b0) 194) as [L3|L3];
        [destruct H; discriminate|].
      destruct r0 as [|b1 r1]; [destruct H; discriminate|].
      destruct (is_continuation (Byte.to_N b1)) eqn:C1;
        [|destruct H; discriminate].
      cbn [negb] in H. apply bind_returns in H. simpl in Hn.
      apply wf_two; [unfold in_range; lia | now apply is_continuation_iff |].
      apply IH; [lia | exact H]. }
    destruct (N.ltb_spec (Byte.to_N b0) 240) as [L3|L3].
    { destruct r0 as [|b1 r1]; [destruct H; discriminate|].
      destruct (negb (is_continuation (Byte.to_N b1)) || _) eqn:C1;
        [destruct H; discriminate|].
      destruct r1 as [|b2 r2]; [destruct H; discriminate|].
      destruct (is_continuation (Byte.to_N b2)) eqn:C2;
        [|destruct H; discriminate].
      cbn [negb] in H. apply bind_returns in H. simpl in Hn.
      apply wf_three;
        [apply second_of_three_iff; [lia | exact C1]
        | now apply is_continuation_iff |].
      apply IH; [lia | exact H]. }
    destruct (N.ltb_spec (Byte.to_N b0) 245) as [L4|L4];
      [|destruct H; discriminate].
    destruct r0 as [|b1 r1]; [destruct H; discriminate|].
    destruct (negb (is_continuation (Byte.to_N b1)) || _) eqn:C1;
      [destruct H; discriminate|].
    destruct r1 as [|b2 r2]; [destruct H; discriminate|].
    destruct (is_continuation (Byte.to_N b2)) eqn:C2;
      [|destruct H; discriminate].
    cbn [negb] in H.
    destruct r2 as [|b3 r3]; [destruct H; discriminate|].
    destruct (is_continuation (Byte.to_N b3)) eqn:C3;
      [|destruct H; discriminate].
    cbn [negb] in H. apply bind_returns in H. simpl in Hn.
    apply wf_four;
      [apply second_of_four_iff; [lia | exact C1]
      | now apply is_continuation_iff | now apply is_continuation_iff |].
    apply IH; [lia | exact H].
Qed.

Lemma well_formed_utf8_decodes (bs : bytes) :
  well_formed_utf8 bs -> returns (utf8_decode bs).
Proof.
  induction 1 as [ | b0 r R0 _ IH | b0 b1 r R0 R1 _ IH
                   | b0 b1 b2 r S R2 _ IH | b0 b1 b2 b3 r S R2 R3 _ IH ].
  - now exists [].
  - cbn [utf8_decode]. unfold in_range in R0.
    destruct (N.ltb_spec (Byte.to_N b0) 128); [|lia].
    now apply bind_returns.
  - cbn [utf8_decode]. unfold in_range in R0.
    apply is_continuation_iff in R1.
    destruct (N.ltb_spec (Byte.to_N b0) 128); [lia|].
    destruct (N.ltb_spec (Byte.to_N b0) 224); [|lia].
    destruct (N.ltb_spec (Byte.to_N b0) 194); [lia|].
    rewrite R1. cbn [negb]. now apply bind_returns.
  - cbn [utf8_decode]. pose proof (second_of_three_lead _ _ S) as L.
    apply (second_of_three_iff _ _ L) in S.
    apply is_continuation_iff in R2.
    destruct (N.ltb_spec (Byte.to_N b0) 128); [lia|].
    destruct (N.ltb_spec (Byte.to_N b0) 224); [lia|].
    destruct (N.ltb_spec (Byte.to_N b0) 240); [|lia].
    rewrite S, R2. cbn [negb]. now apply bind_returns.
  - cbn [utf8_decode]. pose proof (second_of_four_lead _ _ S) as L.
    apply (second_of_four_iff _ _ L) in S.
    apply is_continuation_iff in R2. apply is_continuation_iff in R3.
    destruct (N.ltb_spec (Byte.to_N b0) 128); [lia|].
    destruct (N.ltb_spec (Byte.to_N b0) 224); [lia|].
    destruct (N.ltb_spec (Byte.to_N b0) 240); [lia|].
    destruct (N.ltb_spec (Byte.to_N b0) 245); [|lia].
    rewrite S, R2, R3. cbn [negb]. now apply bind_returns.
Qed.

(** The decoder accepts exactly the well-formed sequences. *)
Lemma utf8_decode_returns_iff (bs : bytes) :
  returns (utf8_decode bs) <-> well_formed_utf8 bs.
Proof.
  split; [apply (utf8_decode_well_formed_aux (length bs)); lia
         | apply well_formed_utf8_decodes].
Qed.

(** A decoding failure is a [UnicodeDecodeError]. *)
Lemma utf8_decode_raises (bs : bytes) (e : exn) :
  utf8_decode bs = Raise e -> cls e = UnicodeDecodeError.
Proof.
  remember (length bs) as n eqn:Hn. assert (Hle : length bs <= n) by lia.
  clear Hn. revert bs Hle e.
  induction n as [|n IH]; intros bs Hle e.
  - destruct bs; [discriminate | simpl in Hle; lia].
  - destruct bs as [|b0 r0]; [discriminate|]. simpl in Hle.
    assert (Hrec : forall r (f : list N -> list N) e',
               length r <= n ->
               (x <- utf8_decode r ;; Ret (f x)) = Raise e' ->
               cls e' = UnicodeDecodeError).
    { intros r f e' Hr. destruct (utf8_decode r) eqn:Er; simpl;
        [discriminate|]. intros [= <-]. now apply (IH r). }
    cbn [utf8_decode].
    repeat match goal with
           | |- (if ?c then _ else _) = _ -> _ => destruct c
           | |- match ?r with [] => _ | _ :: _ => _ end = _ -> _ =>
               destruct r; simpl in Hle
           | |- Raise _ = Raise _ -> _ => intros [= <-]; reflexivity
           | |- bind _ _ = _ -> _ => apply Hrec; lia
           end.
Qed.

End Utf8Facts.
(** ** [str.split], [int] and [str] *)

Section IntFacts.

Lemma lstrip_no_space (s : pystr) :
  Forall (fun c => isspace c = false) s -> lstrip s = s.
Proof.
  intros H. destruct s as [|c s]; [reflexivity|].
  inversion H as [|? ? Hc _]; subst. simpl. now rewrite Hc.
Qed.

Lemma Forall_rev_chars (P : ascii -> Prop) (s : pystr) :
  Forall P s -> Forall P (rev s).
Proof.
  intros H. apply Forall_forall. intros c Hc. apply in_rev in Hc.
  rewrite Forall_forall in H. now apply H.
Qed.

Lemma strip_no_space (s : pystr) :
  Forall (fun c => isspace c = false) s -> strip s = s.
Proof.
  intros H. unfold strip, rstrip. rewrite (lstrip_no_space s H).
  rewrite lstrip_no_space; [apply rev_involutive | now apply Forall_rev_chars].
Qed.

Lemma rev_nonempty (a : ascii) (s : pystr) : rev (a :: s) <> [].
Proof.
  intros E. apply (f_equal (@length ascii)) in E.
  rewrite length_rev in E. discriminate.
Qed.

(** The tokens of [split] are non-empty and free of white space. *)
Lemma split_acc_tokens (s cur : pystr) :
  Forall (fun c => isspace c = false) cur ->
  Forall (fun t => t <> [] /\ Forall (fun c => isspace c = false) t)
         (split_acc cur s).
Proof.
  revert cur; induction s as [|c s IH]; intros cur Hcur; simpl.
  - destruct cur as [|a cur]; [constructor|].
    constructor; [|constructor].
    split; [apply rev_nonempty | now apply Forall_rev_chars].
  - destruct (isspace c) eqn:Ec.
    + destruct cur as [|a cur]; [apply IH; constructor|].
      constructor; [|apply IH; constructor].
      split; [apply rev_nonempty | now apply Forall_rev_chars].
    + apply IH. now constructor.
Qed.

Lemma split_tokens (s : pystr) :
  Forall (fun t => t <> [] /\ Forall (fun c => isspace c = false) t) (split s).
Proof. apply split_acc_tokens. constructor. Qed.


Lemma scan_digits_numeral (d : Decimal.uint) (acc : Z) :
  scan_digits acc false (list_ascii_of_string (NilEmpty.string_of_uint d))
  = Some (uint_value acc d).
Proof.
  revert acc; induction d; intros acc; simpl; try reflexivity;
    rewrite IHd; reflexivity.
Qed.

Lemma uint_value_acc (d : Decimal.uint) (acc : positive) :
  uint_value (Zpos acc) d = Zpos (Pos.of_uint_acc d acc).
Proof.
  revert acc; induction d; intros acc;
    cbn [uint_value Pos.of_uint_acc]; try reflexivity;
    rewrite <- IHd; f_equal; lia.
Qed.

Lemma uint_value_of_uint (d : Decimal.uint) :
  uint_value 0 d = Z.of_N (Pos.of_uint d).
Proof.
  induction d; cbn [uint_value Pos.of_uint]; try reflexivity;
    try exact IHd; apply (uint_value_acc d).
Qed.

Lemma parse_int_numeral (d : Decimal.uint) :
  d <> Decimal.Nil ->
  parse_int (list_ascii_of_string (NilEmpty.string_of_uint d))
  = Some (uint_value 0 d) /\
  parse_int ("-"%char :: list_ascii_of_string (NilEmpty.string_of_uint d))
  = Some (- uint_value 0 d)%Z.
Proof.
  intros Hd. pose proof (scan_digits_numeral d 0) as H.
  destruct d; try congruence; simpl in *;
    unfold parse_int; simpl; rewrite H; split; reflexivity.
Qed.

(** [str] prints a literal that [int] reads back as the same integer. *)
Lemma parse_int_py_str (z : Z) : parse_int (py_str z) = Some z.
Proof.
  unfold py_str. destruct z as [|p|p].
  - reflexivity.
  - simpl. pose proof (DecimalPos.Unsigned.to_uint_nonnil p) as Hn.
    destruct (parse_int_numeral _ Hn) as [H _].
    unfold NilZero.string_of_uint.
    destruct (Pos.to_uint p) eqn:E; try congruence;
      rewrite H, uint_value_of_uint, <- E, DecimalPos.Unsigned.of_to;
      reflexivity.
  - simpl. pose proof (DecimalPos.Unsigned.to_uint_nonnil p) as Hn.
    destruct (parse_int_numeral _ Hn) as [_ H].
    unfold NilZero.string_of_uint.
    destruct (Pos.to_uint p) eqn:E; try congruence;
      rewrite H, uint_value_of_uint, <- E, DecimalPos.Unsigned.of_to;
      reflexivity.
Qed.

End IntFacts.

(** ** [is_text_file] and [execute_python_file] *)

Section UtilsFacts.

Lemma endswith_iff (s p : pystr) :
  endswith s p = true <-> exists stem, s = stem ++ p.
Proof.
  unfold endswith. rewrite startswith_app. split.
  - intros [post H]. exists (rev post).
    apply (f_equal (@rev ascii)) in H.
    now rewrite rev_involutive, rev_app_distr, rev_involutive in H.
  - intros [stem ->]. exists (rev stem). now rewrite rev_app_distr.
Qed.



Lemma split_no_space (s : pystr) :
  Forall (fun t => Forall (fun c => isspace c = false) t) (split s).
Proof.
  pose proof (split_tokens s) as H. rewrite Forall_forall in *.
  intros t Ht. now apply H.
Qed.




Lemma execute_python_file_finished (w : world) (path out err : pystr)
    (t : Q) (rc : Z) :
  path_exists w path = true -> endswith path (str ".py") = true ->
  child_of w path = Exits t rc out err -> (t <= run_timeout)%Q ->
  execute_python_file w path = Ret (reduce_result (mk_completed rc out err)).
Proof.
  intros He Hp Hc Ht. unfold execute_python_file, subprocess_run.
  rewrite He, Hp, Hc. simpl negb. cbv iota.
  apply Qle_bool_iff in Ht. rewrite Ht. reflexivity.
Qed.

Lemma execute_python_file_timed_out (w : world) (path : pystr) :
  path_exists w path = true -> endswith path (str ".py") = true ->
  (child_of w path = Hangs \/
   exists t rc out err, child_of w path = Exits t rc out err /\
                        (run_timeout < t)%Q) ->
  execute_python_file w path = Ret timeout_message.
Proof.
  intros He Hp Hc. unfold execute_python_file, subprocess_run.
  rewrite He, Hp. simpl negb. cbv iota.
  destruct Hc as [-> | (t & rc & out & err & -> & Ht)]; [reflexivity|].
  destruct (Qle_bool t run_timeout) eqn:E; [|reflexivity].
  apply Qle_bool_iff in E. exfalso. apply (Qlt_not_le _ _ Ht E).
Qed.


Lemma is_text_file_returns (w : world) (path : pystr) :
  returns (is_text_file w path).
Proof.
  unfold is_text_file, returns.
  destruct (open_rb w path) as [file|e]; cbn [bind].
  - destruct (utf8_decode (firstn 1024 file)) as [cps|e]; cbn [bind];
      [eexists; reflexivity|].
    destruct (cls e); eexists; reflexivity.
  - destruct (cls e); eexists; reflexivity.
Qed.


End UtilsFacts.

(** C7.  [is_text_file] never raises.  For a file that can be opened it
    answers [True] exactly when the first 1024 bytes of the file decode as
    UTF-8, that is, form a well-formed UTF-8 sequence, and [False]
    otherwise; when the file cannot be opened it answers [False]. *)
Theorem is_text_file_iff_prefix_decodes (w : world) (path : pystr) :
  returns (is_text_file w path) /\
  (forall content, open_rb w path = Ret content ->
     (is_text_file w path = Ret true
      <-> returns (utf8_decode (firstn 1024 content))) /\
     (returns (utf8_decode (firstn 1024 content))
      <-> well_formed_utf8 (firstn 1024 content)) /\
     (is_text_file w path = Ret false
      <-> ~ well_formed_utf8 (firstn 1024 content))) /\
  (forall e, open_rb w path = Raise e -> is_text_file w path = Ret false).
Proof.
  split; [apply is_text_file_returns|]. split.
  - intros content Ho. unfold is_text_file. rewrite Ho. cbn [bind].
    pose proof (utf8_decode_returns_iff (firstn 1024 content)) as Hwf.
    destruct (utf8_decode (firstn 1024 content)) as [cps|e] eqn:Ed;
      cbn [bind].
    + assert (R : returns (@Ret (list N) cps)) by (eexists; reflexivity).
      repeat split; try tauto; try discriminate.
    + assert (R : ~ returns (@Raise (list N) e))
        by (intros [x Hx]; discriminate).
      assert (F : match cls e with
                  | UnicodeDecodeError => @Ret bool false
                  | _ => Ret false
                  end = Ret false) by (destruct (cls e); reflexivity).
      rewrite F. repeat split; try tauto; try discriminate.
  - intros e Ho. unfold is_text_file. rewrite Ho. cbn [bind].
    destruct (cls e); reflexivity.
Qed.

(** C5.  If the path does not exist, or does not end with [.py],
    [execute_python_file] returns (it does not raise) a string that begins
    with [Error:] and names the reason and the path. *)
Theorem execute_python_file_rejects_path (w : world) (path : pystr)
    (Hbad : path_exists w path = false \/
            ~ (exists stem, path = stem ++ str ".py")) :
  (exists reason,
     execute_python_file w path = Ret (str "Error:" ++ reason)) /\
  (path_exists w path = false ->
   execute_python_file w path = Ret (str "Error: File not found: " ++ path)) /\
  (path_exists w path = true ->
   execute_python_file w path
   = Ret (str "Error: File is not a Python file: " ++ path)).
Proof.
  assert (Hnf : path_exists w path = false ->
                execute_python_file w path
                = Ret (str "Error: File not found: " ++ path)).
  { intros E. unfold execute_python_file. now rewrite E. }
  assert (Hnp : path_exists w path = true ->
                execute_python_file w path
                = Ret (str "Error: File is not a Python file: " ++ path)).
  { intros E. destruct Hbad as [Hb|Hb]; [congruence|].
    unfold execute_python_file. rewrite E. cbn [negb].
    destruct (endswith path (str ".py")) eqn:Ee; [|reflexivity].
    apply endswith_iff in Ee. contradiction. }
  split; [|split; assumption].
  destruct (path_exists w path) eqn:E.
  - exists (str " File is not a Python file: " ++ path). now rewrite Hnp.
  - exists (str " File not found: " ++ path). now rewrite Hnf.
Qed.

Lemma execute_python_file_rejects_path_witness :
  execute_python_file (nothing_exists) (str "nonexistent.py")
  = Ret (str "Error: File not found: nonexistent.py") /\
  execute_python_file (one_file (str "notes.txt") [] [] (Exits 1 0 [] []))
    (str "notes.txt")
  = Ret (str "Error: File is not a Python file: notes.txt").
Proof.
  split.
  - destruct (execute_python_file_rejects_path nothing_exists
                (str "nonexistent.py") (or_introl eq_refl)) as (_ & H & _).
    exact (H eq_refl).
  - assert (Hno : ~ (exists stem, str "notes.txt" = stem ++ str ".py")).
    { intros H. apply endswith_iff in H. vm_compute in H. discriminate. }
    destruct (execute_python_file_rejects_path
                (one_file (str "notes.txt") [] [] (Exits 1 0 [] []))
                (str "notes.txt") (or_intror Hno)) as (_ & _ & H).
    exact (H eq_refl).
Defined.




(** C10.  The bound that [execute_python_file] puts on the child is 180
    seconds: a child that ends within 180 seconds is not timed out, one that
    runs longer (or for ever) is.  The string returned on a timeout is
    ["Error: Execution timed out after 60 seconds"]: the two figures
    differ.  A child that runs for 100 seconds and prints 7 yields ["7"]. *)
Theorem timeout_enforced_180_reported_60 :
  (run_timeout == 180)%Q /\
  timeout_message = str "Error: Execution timed out after 60 seconds" /\
  (forall w path,
     path_exists w path = true -> endswith path (str ".py") = true ->
     (forall t rc out err,
        child_of w path = Exits t rc out err ->
        ((t <= 180)%Q ->
         execute_python_file w path
         = Ret (reduce_result (mk_completed rc out err))) /\
        ((180 < t)%Q -> execute_python_file w path = Ret timeout_message)) /\
     (child_of w path = Hangs ->
      execute_python_file w path = Ret timeout_message)) /\
  execute_python_file
    (one_file (str "slow.py") [] [] (Exits 100 0 (str "7") [])) (str "slow.py")
  = Ret (str "7") /\
  execute_python_file
    (one_file (str "slow.py") [] [] (Exits 181 0 (str "7") [])) (str "slow.py")
  = Ret (str "Error: Execution timed out after 60 seconds").
Proof.
  split; [reflexivity|]. split; [reflexivity|]. split.
  - intros w path He Hp. split.
    + intros t rc out err Hc. split; intros Ht.
      * now apply (execute_python_file_finished w path out err t rc).
      * apply execute_python_file_timed_out; try assumption.
        right. now exists t, rc, out, err.
    + intros Hc. apply execute_python_file_timed_out; try assumption.
      now left.
  - split; vm_compute; reflexivity.
Qed.

(** ** [BasicAgent.__call__] *)

Section AgentFacts.

Lemma pystr_eqb_eq (a b : pystr) : pystr_eqb a b = true <-> a = b.
Proof.
  unfold pystr_eqb. destruct (list_eq_dec ascii_dec a b);
    split; congruence.
Qed.

Lemma pystr_eqb_neq (a b : pystr) : pystr_eqb a b = false <-> a <> b.
Proof.
  unfold pystr_eqb. destruct (list_eq_dec ascii_dec a b);
    split; congruence.
Qed.

Lemma nonempty_true (s : pystr) : s <> [] -> nonempty s = true.
Proof. destruct s; [congruence | reflexivity]. Qed.

End AgentFacts.

(** C9.  For an attachment path that exists: when the file is classified
    as text and its content has been read, the prompt is the question
    followed by the whole content under the heading "Attached File
    Content:" if the suffix is not [.py] (a [.txt] file in particular), and
    by the line "Attached Python code file: <path>", without the content, if
    the suffix is [.py]; when the file is classified as binary, the prompt is
    the question followed by the instruction to use [transcribe_audio] and
    the line "Attached mp3 file: <path>" if the suffix is [.mp3], and by the
    line "Attached File Path: <path>" otherwise. *)
Theorem build_prompt_policy (w : world) (question path : pystr)
    (Hne : path <> []) (Hex : path_exists w path = true) :
  (forall content,
     is_text_file w path = Ret true -> open_r w path = Ret content ->
     (suffix path = str ".txt" ->
      build_prompt w question (Some path)
      = question ++ str (String "010" "Attached File Content:")
                 ++ str (String "010" "") ++ content) /\
     (suffix path <> str ".py" ->
      build_prompt w question (Some path)
      = question ++ str (String "010" "Attached File Content:")
                 ++ str (String "010" "") ++ content) /\
     (suffix path = str ".py" ->
      build_prompt w question (Some path)
      = question ++ str (String "010" "Attached Python code file: ") ++ path)) /\
  (is_text_file w path = Ret false ->
   (suffix path = str ".mp3" ->
    build_prompt w question (Some path)
    = question
      ++ str (String "010" "Use the 'transcribe_audio' tool to extract text from the mp3 file.")
      ++ str (String "010" "Attached mp3 file: ") ++ path) /\
   (suffix path <> str ".mp3" ->
    build_prompt w question (Some path)
    = question ++ str (String "010" "Attached File Path: ") ++ path)).
Proof.
  split.
  - intros content Ht Hr.
    assert (G : suffix path <> str ".py" ->
                build_prompt w question (Some path)
                = question ++ str (String "010" "Attached File Content:")
                           ++ str (String "010" "") ++ content).
    { intros Hs. unfold build_prompt.
      rewrite (nonempty_true _ Hne), Hex, Ht. cbn [andb bind]. rewrite Hr.
      cbn [bind]. apply pystr_eqb_neq in Hs. now rewrite Hs. }
    split; [|split; [exact G|]].
    + intros Hs. apply G. rewrite Hs. vm_compute. discriminate.
    + intros Hs. unfold build_prompt.
      rewrite (nonempty_true _ Hne), Hex, Ht. cbn [andb bind]. rewrite Hr.
      cbn [bind]. apply pystr_eqb_eq in Hs. now rewrite Hs.
  - intros Ht. split; intros Hs; unfold build_prompt;
      rewrite (nonempty_true _ Hne), Hex, Ht; cbn [andb bind].
    + apply pystr_eqb_eq in Hs. now rewrite Hs.
    + apply pystr_eqb_neq in Hs. now rewrite Hs.
Qed.

Lemma build_prompt_policy_witness :
  build_prompt
    (one_file (str "notes.txt") [Byte.x68; Byte.x69] (str "hi") Hangs)
    (str "What?") (Some (str "notes.txt"))
  = str ("What?" ++ String "010" "Attached File Content:"
         ++ String "010" "hi") /\
  build_prompt
    (one_file (str "a/song.mp3") [Byte.xff; Byte.xfb] [] Hangs)
    (str "What?") (Some (str "a/song.mp3"))
  = str ("What?"
         ++ String "010" "Use the 'transcribe_audio' tool to extract text from the mp3 file."
         ++ String "010" "Attached mp3 file: a/song.mp3").
Proof.
  split.
  - destruct (build_prompt_policy
                (one_file (str "notes.txt") [Byte.x68; Byte.x69] (str "hi") Hangs)
                (str "What?") (str "notes.txt")
                ltac:(discriminate) eq_refl) as [H _].
    destruct (H (str "hi") eq_refl eq_refl) as [H1 _].
    rewrite (H1 eq_refl). reflexivity.
  - destruct (build_prompt_policy
                (one_file (str "a/song.mp3") [Byte.xff; Byte.xfb] [] Hangs)
                (str "What?") (str "a/song.mp3")
                ltac:(discriminate) eq_refl) as [_ H].
    destruct (H eq_refl) as [H1 _].
    rewrite (H1 eq_refl). reflexivity.
Defined.

(** ** Exhausted retries *)

Section ExhaustionFacts.




End ExhaustionFacts.



(** ** The functions on concrete inputs *)

Section Examples.

Local Open Scope string_scope.

Example int_literals :
  map (fun s => parse_int (str s))
      ["42"; "+007"; "-0"; "1_000"; "_1"; "1_"; "1__0"; "0x10"; "3.5"; "-"; ""]
  = [Some 42%Z; Some 7%Z; Some 0%Z; Some 1000%Z;
     None; None; None; None; None; None; None].
Proof. vm_compute. reflexivity. Qed.

Example str_of_integers :
  map py_str [0%Z; 7%Z; (-120)%Z] = [str "0"; str "7"; str "-120"].
Proof. vm_compute. reflexivity. Qed.

Example split_on_white_space :
  split (str ("  done" ++ String "009" "42 " ++ String "010" ""))
  = [str "done"; str "42"].
Proof. vm_compute. reflexivity. Qed.

Example first_integer_wins :
  reduce_result (mk_completed 0 (str "step 3 of 10: result 42") [])
  = str "3".
Proof. vm_compute. reflexivity. Qed.

Example warnings_are_appended :
  reduce_result (mk_completed 0 (str "42") (str "deprecated"))
  = str ("42" ++ String "010" "Warnings/Info: deprecated").
Proof. vm_compute. reflexivity. Qed.

Example white_space_only_stdout :
  reduce_result (mk_completed 0 (str (" " ++ String "010" "")) [])
  = str "Script executed successfully with no output".
Proof. vm_compute. reflexivity. Qed.

Example suffixes :
  map (fun p => suffix (str p))
      ["/tmp/a.tar.gz"; ".py"; "a/b.d/c"; "a.py/"; "a."; "x/song.mp3"]
  = [str ".gz"; []; []; str ".py"; []; str ".mp3"].
Proof. vm_compute. reflexivity. Qed.

(** A multi-byte character cut by the 1024-byte window makes a text file
    binary; one byte earlier it fits. *)
Example sniff_cut_character :
  is_text_file
    (one_file (str "f") (repeat Byte.x61 1023 ++ [Byte.xc3; Byte.xa9])%list []
       Hangs) (str "f") = Ret false /\
  is_text_file
    (one_file (str "f") (repeat Byte.x61 1022 ++ [Byte.xc3; Byte.xa9])%list []
       Hangs) (str "f") = Ret true.
Proof. split; vm_compute; reflexivity. Qed.

(** Surrogates, overlong forms and code points beyond U+10FFFF are refused. *)
Example sniff_ill_formed :
  map (fun bs => is_text_file (one_file (str "f") bs [] Hangs) (str "f"))
      [[Byte.xed; Byte.xa0; Byte.x80]; [Byte.xc0; Byte.x80];
       [Byte.xf4; Byte.x90; Byte.x80; Byte.x80];
       [Byte.xf4; Byte.x8f; Byte.xbf; Byte.xbf]]
  = [Ret false; Ret false; Ret false; Ret true] /\
  is_text_file nothing_exists (str "f") = Ret false.
Proof. split; vm_compute; reflexivity. Qed.

(** Eight failing calls of one second each, with half of every wait drawn:
    the waits double until the seventh, which is cut to what is left of the
    60 seconds. *)
Example eight_tries :
  let run := Backoff.on_exception_run (loader_calls always_fails)
               max_tries max_time in
  Backoff.tries_made run = 8 /\
  map Qred (Backoff.sleeps run)
  = [(1 # 2)%Q; 1%Q; 2%Q; 4%Q; 8%Q; 16%Q; (45 # 2)%Q] /\
  map Qred (Backoff.started run)
  = [0%Q; (3 # 2)%Q; (7 # 2)%Q; (13 # 2)%Q; (23 # 2)%Q; (41 # 2)%Q;
     (75 # 2)%Q; 61%Q].
Proof. vm_compute. repeat split. Qed.

(** Calls of 40 seconds: the third begins after the 60 seconds are over, and
    its failure ends the loop at three tries. *)
Example deadline_ends_the_loop :
  let run := Backoff.on_exception_run (loader_calls slow_fails)
               max_tries max_time in
  Backoff.tries_made run = 3 /\
  load_youtube slow_fails (str "anchor") = Raise (mk_exn OSError (str "3")).
Proof. vm_compute. repeat split. Qed.

Example batches_of_three :
  make_batches (str "abcdefgh") 3 = Ret [str "abc"; str "def"; str "gh"] /\
  make_batches (str "abcdefgh") (-3) = Ret [] /\
  raises (make_batches (str "abcdefgh") 0).
Proof.
  split; [|split]; try (vm_compute; reflexivity).
  eexists. vm_compute. reflexivity.
Qed.

End Examples.

(** * Further properties *)

(** ** Case and white space *)

Section Normalisation.

Import Lexicon.

Lemma isspace_lower_char (c : ascii) : isspace (lower_char c) = isspace c.
Proof. destruct c as [[] [] [] [] [] [] [] []]; vm_compute; reflexivity. Qed.

Lemma lower_char_idem (c : ascii) : lower_char (lower_char c) = lower_char c.
Proof. destruct c as [[] [] [] [] [] [] [] []]; vm_compute; reflexivity. Qed.

Lemma lower_idem (s : pystr) : lower (lower s) = lower s.
Proof.
  unfold lower. rewrite map_map. apply map_ext. apply lower_char_idem.
Qed.

Lemma lstrip_lower (s : pystr) : lstrip (lower s) = lower (lstrip s).
Proof.
  induction s as [|c s IH]; [reflexivity|]. simpl.
  rewrite isspace_lower_char. destruct (isspace c); [exact IH | reflexivity].
Qed.

Lemma strip_lower (s : pystr) : strip (lower s) = lower (strip s).
Proof.
  unfold strip, rstrip, lower.
  fold (lower s). rewrite lstrip_lower. unfold lower.
  rewrite <- map_rev. fold (lower (rev (lstrip s))). rewrite lstrip_lower.
  unfold lower. now rewrite map_rev.
Qed.

Lemma lstrip_head_ok (s : pystr) : head_ok (lstrip s).
Proof.
  induction s as [|c s IH]; [exact I|]. simpl.
  destruct (isspace c) eqn:E; [exact IH | exact E].
Qed.

Lemma head_ok_lstrip (s : pystr) : head_ok s -> lstrip s = s.
Proof. destruct s as [|c s]; [reflexivity|]. simpl. now intros ->. Qed.

Lemma lstrip_suffix (s : pystr) : exists ws, s = ws ++ lstrip s.
Proof.
  induction s as [|c s [ws IH]]; [now exists []|]. simpl.
  destruct (isspace c).
  - exists (c :: ws). simpl. now f_equal.
  - now exists [].
Qed.

Lemma head_ok_app (a b : pystr) : head_ok (a ++ b) -> head_ok a.
Proof. destruct a; [intros _; exact I | exact (fun H => H)]. Qed.

Lemma strip_fixed (s : pystr) :
  head_ok s -> head_ok (rev s) -> strip s = s.
Proof.
  intros H1 H2. unfold strip, rstrip.
  rewrite (head_ok_lstrip s H1), (head_ok_lstrip _ H2). apply rev_involutive.
Qed.

Lemma strip_head_ok (s : pystr) : head_ok (strip s) /\ head_ok (rev (strip s)).
Proof.
  unfold strip, rstrip. rewrite rev_involutive. split.
  - destruct (lstrip_suffix (rev (lstrip s))) as [ws E].
    apply (f_equal (@rev ascii)) in E.
    rewrite rev_involutive, rev_app_distr in E.
    pose proof (lstrip_head_ok s) as H. rewrite E in H.
    exact (head_ok_app _ _ H).
  - apply lstrip_head_ok.
Qed.

Lemma strip_idem (s : pystr) : strip (strip s) = strip s.
Proof. destruct (strip_head_ok s). now apply strip_fixed. Qed.

(** [strip(lower(.))] is idempotent and absorbs a [strip] made before. *)
Lemma norm_idem (s : pystr) :
  strip (lower (strip (lower s))) = strip (lower s).
Proof. now rewrite (strip_lower (strip (lower s))), strip_idem, <- strip_lower, lower_idem. Qed.

Lemma norm_strip (s : pystr) : strip (lower (strip s)) = strip (lower s).
Proof. now rewrite <- strip_lower, strip_idem. Qed.

End Normalisation.

(** ** Word lists *)

Section LexiconFacts.

Import Lexicon.

Lemma str_eqb_eq (a b : pystr) : str_eqb a b = true <-> a = b.
Proof.
  revert b; induction a as [|c a IH]; intros [|d b]; simpl;
    try (split; [discriminate | intros; discriminate]); [tauto|].
  rewrite andb_true_iff, Ascii.eqb_eq, IH. split.
  - now intros [-> ->].
  - intros [= -> ->]. tauto.
Qed.

Lemma mem_In (x : pystr) (l : list pystr) : mem x l = true <-> In x l.
Proof.
  unfold mem. rewrite existsb_exists. split.
  - intros [y [Hy E]]. apply str_eqb_eq in E. now subst.
  - intros H. exists x. split; [exact H | now apply str_eqb_eq].
Qed.

Lemma lookup_key (k v : pystr) (d : list (pystr * pystr)) :
  lookup k d = Some v -> In k (map fst d).
Proof.
  induction d as [|[k' v'] d IH]; [discriminate|]. simpl.
  destruct (str_eqb k k') eqn:E.
  - apply str_eqb_eq in E. now left.
  - intros H. right. now apply IH.
Qed.

Lemma singular_of_empty : singular_of [] = [].
Proof. reflexivity. Qed.

(** [plural_to_singular] only looks at the lowercased, stripped word. *)
Lemma plural_to_singular_norm (w : pystr) :
  plural_to_singular w = singular_of (strip (lower w)).
Proof. destruct w; reflexivity. Qed.

Lemma is_fruit_norm (item : pystr) :
  is_fruit item = mem (singular_of (strip (lower item))) fruits.
Proof. unfold is_fruit. now rewrite plural_to_singular_norm, norm_strip. Qed.

Lemma is_vegetable_norm (item : pystr) :
  is_vegetable item = mem (singular_of (strip (lower item))) vegetables.
Proof.
  unfold is_vegetable. now rewrite plural_to_singular_norm, norm_strip.
Qed.

Lemma is_product_norm (item : pystr) :
  is_product item = mem (singular_of (strip (lower item))) products.
Proof. unfold is_product. now rewrite plural_to_singular_norm, norm_strip. Qed.

End LexiconFacts.

(** X1.  [reverse_string] is its own inverse, keeps the length, and reverses
    a concatenation piece by piece in the opposite order. *)
Theorem reverse_string_involutive (a b : pystr) :
  Lexicon.reverse_string (Lexicon.reverse_string a) = a /\
  length (Lexicon.reverse_string a) = length a /\
  Lexicon.reverse_string (a ++ b)
  = Lexicon.reverse_string b ++ Lexicon.reverse_string a.
Proof.
  unfold Lexicon.reverse_string.
  now rewrite rev_involutive, length_rev, rev_app_distr.
Qed.

(** X2.  Letter case and surrounding white space do not matter to the word
    helpers: two inputs that agree once lowercased and stripped get the same
    singular and the same answer from [is_fruit], [is_vegetable],
    [is_product] and [is_food]. *)
Theorem word_helpers_ignore_case_and_padding (a b : pystr)
    (Hsame : strip (lower a) = strip (lower b)) :
  Lexicon.plural_to_singular a = Lexicon.plural_to_singular b /\
  Lexicon.is_fruit a = Lexicon.is_fruit b /\
  Lexicon.is_vegetable a = Lexicon.is_vegetable b /\
  Lexicon.is_product a = Lexicon.is_product b /\
  Lexicon.is_food a = Lexicon.is_food b.
Proof.
  rewrite !plural_to_singular_norm, !is_fruit_norm, !is_vegetable_norm,
    !is_product_norm. unfold Lexicon.is_food. now rewrite Hsame.
Qed.

Lemma word_helpers_ignore_case_and_padding_witness :
  Lexicon.is_fruit (str "  Strawberries  ") = Lexicon.is_fruit (str "strawberries") /\
  Lexicon.is_food (str "  Ice Cream  ") = Lexicon.is_food (str "ice cream").
Proof.
  destruct (word_helpers_ignore_case_and_padding
              (str "  Strawberries  ") (str "strawberries") eq_refl)
    as (_ & H1 & _).
  destruct (word_helpers_ignore_case_and_padding
              (str "  Ice Cream  ") (str "ice cream") eq_refl)
    as (_ & _ & _ & _ & H2).
  split; assumption.
Defined.

Section SuffixFacts.

Import Lexicon.

Lemma endswith_weaken (s p q : pystr) :
  endswith s (p ++ q) = true -> endswith s q = true.
Proof.
  rewrite !endswith_iff. intros [stem ->]. exists (stem ++ p).
  now rewrite app_assoc.
Qed.

Lemma drop_last_app (n : nat) (p x : pystr) :
  length x = n -> drop_last n (p ++ x) = p.
Proof.
  intros <-. unfold drop_last. rewrite length_app.
  replace (length p + length x - length x) with (length p) by lia.
  rewrite firstn_app, Nat.sub_diag, firstn_all. simpl. apply app_nil_r.
Qed.

Lemma irregular_keys :
  map fst irregular_plurals
  = [str "children"; str "feet"; str "teeth"; str "geese"; str "mice";
     str "men"; str "women"; str "people"; str "oxen"; str "sheep";
     str "deer"; str "fish"; str "species"; str "series"].
Proof. reflexivity. Qed.

(** No irregular plural ends in [ves]. *)
Lemma lookup_ves (p : pystr) :
  lookup (p ++ str "ves") irregular_plurals = None.
Proof.
  destruct (lookup (p ++ str "ves") irregular_plurals) as [v|] eqn:E;
    [|reflexivity].
  apply lookup_key in E. rewrite irregular_keys in E.
  assert (Hend : endswith (p ++ str "ves") (str "ves") = true)
    by (apply endswith_iff; now exists p).
  cbn [In] in E.
  repeat (destruct E as [E|E]; [rewrite <- E in Hend; vm_compute in Hend;
                                discriminate|]).
  contradiction.
Qed.

Lemma endswith_tail (p x y : pystr) :
  length x = length y -> endswith (p ++ x) y = str_eqb y x.
Proof.
  intros Hl. destruct (str_eqb y x) eqn:E.
  - apply str_eqb_eq in E. subst. apply endswith_iff. now exists p.
  - destruct (endswith (p ++ x) y) eqn:E'; [|reflexivity].
    apply endswith_iff in E'. destruct E' as [stem E'].
    assert (Hp : length p = length stem).
    { apply (f_equal (@length ascii)) in E'. rewrite !length_app in E'. lia. }
    apply (f_equal (skipn (length p))) in E'.
    rewrite skipn_app, skipn_all, Nat.sub_diag in E'. simpl in E'.
    rewrite Hp, skipn_app, skipn_all, Nat.sub_diag in E'. simpl in E'.
    subst. assert (str_eqb y y = true) by now apply str_eqb_eq. congruence.
Qed.

Lemma snoc_inv (k p : pystr) (c : ascii) :
  k = p ++ [c] -> p = removelast k /\ last k c = c.
Proof. intros ->. now rewrite removelast_last, last_last. Qed.

Lemma slice_from_end_3_2 (p : pystr) (a b c : ascii) :
  slice_from_end (p ++ [a; b; c]) 3 2 = [a].
Proof.
  unfold slice_from_end, slice. rewrite length_app. simpl length.
  replace (length p + 3 - 3) with (length p) by lia.
  replace (length p + 3 - 2 - length p) with 1 by lia.
  rewrite skipn_app, skipn_all, Nat.sub_diag. reflexivity.
Qed.

Lemma slice_from_end_4_2 (p : pystr) (a b c : ascii) :
  exists pre, slice_from_end (p ++ [a; b; c]) 4 2 = pre ++ [a].
Proof.
  unfold slice_from_end, slice. rewrite length_app. simpl length.
  destruct p as [|x p] using rev_ind.
  - now exists [].
  - exists [x]. rewrite length_app. simpl length.
    replace (length p + 1 + 3 - 4) with (length p) by lia.
    replace (length p + 1 + 3 - 2 - length p) with 2 by lia.
    rewrite <- app_assoc, skipn_app, skipn_all, Nat.sub_diag. reflexivity.
Qed.

(** The sibilant test of line 247 fails before [ves]. *)
Lemma no_sibilant_before_ves (p : pystr) :
  mem (slice_from_end (p ++ str "ves") 3 2) [str "s"; str "x"; str "z"]
  || mem (slice_from_end (p ++ str "ves") 4 2) [str "sh"; str "ch"; str "ss"]
  = false.
Proof.
  change (str "ves") with ["v"; "e"; "s"]%char.
  rewrite slice_from_end_3_2.
  destruct (slice_from_end_4_2 p "v" "e" "s") as [pre ->].
  apply orb_false_iff. split; [reflexivity|].
  destruct (mem (pre ++ ["v"%char]) _) eqn:E; [|reflexivity].
  apply mem_In in E. cbn [In] in E.
  repeat (destruct E as [E|E];
          [apply snoc_inv in E; destruct E as [_ E]; vm_compute in E;
           discriminate|]).
  contradiction.
Qed.

End SuffixFacts.

(** X3.  A word that, lowercased and stripped, does not end in [s] and is
    not one of the irregular plurals of the table comes back from
    [plural_to_singular] lowercased and stripped, otherwise unchanged. *)
Theorem plural_to_singular_keeps_words_without_s (w : pystr)
    (Hreg : ~ In (strip (lower w)) (map fst Lexicon.irregular_plurals))
    (Hs : endswith (strip (lower w)) (str "s") = false) :
  Lexicon.plural_to_singular w = strip (lower w).
Proof.
  rewrite plural_to_singular_norm. set (n := strip (lower w)) in *.
  unfold Lexicon.singular_of.
  destruct (Lexicon.lookup n Lexicon.irregular_plurals) as [v|] eqn:El.
  { apply lookup_key in El. contradiction. }
  assert (N : forall p, endswith n (p ++ str "s") = false).
  { intros p. destruct (endswith n (p ++ str "s")) eqn:E; [|reflexivity].
    apply endswith_weaken in E. congruence. }
  change (str "ies") with (str "ie" ++ str "s").
  change (str "oes") with (str "oe" ++ str "s").
  change (str "es") with (str "e" ++ str "s").
  unfold Lexicon.ves_rule. change (str "ves") with (str "ve" ++ str "s").
  rewrite !N, Hs. reflexivity.
Qed.

Lemma plural_to_singular_keeps_words_without_s_witness :
  Lexicon.plural_to_singular (str "  Broccoli ") = str "broccoli".
Proof.
  apply (plural_to_singular_keeps_words_without_s (str "  Broccoli ")).
  - vm_compute. intuition discriminate.
  - reflexivity.
Defined.

(** X4.  For a lowercased, stripped word [p ++ "ves"], [plural_to_singular]
    gives [p ++ "f"] when [p] is one of lea, loa, thie, shel, wol, cal, hal,
    and [p ++ "ve"] otherwise.  So knives, lives and wives come back as
    knive, live and wive: the entries knife, life and wife of the list of
    line 236 are never produced. *)
Theorem plural_to_singular_ves (p : pystr)
    (Hnorm : strip (lower (p ++ str "ves")) = p ++ str "ves") :
  Lexicon.plural_to_singular (p ++ str "ves")
  = (if Lexicon.mem p [str "lea"; str "loa"; str "thie"; str "shel";
                       str "wol"; str "cal"; str "hal"]
     then p ++ str "f" else p ++ str "ve") /\
  ~ In (Lexicon.plural_to_singular (p ++ str "ves"))
       [str "knife"; str "life"; str "wife"].
Proof.
  assert (Main : Lexicon.plural_to_singular (p ++ str "ves")
                 = (if Lexicon.mem p [str "lea"; str "loa"; str "thie";
                                      str "shel"; str "wol"; str "cal";
                                      str "hal"]
                    then p ++ str "f" else p ++ str "ve")).
  { rewrite plural_to_singular_norm, Hnorm.
    destruct (Lexicon.mem p _) eqn:Em.
    - apply mem_In in Em. cbn [In] in Em.
      repeat (destruct Em as [Em|Em]; [subst p; vm_compute; reflexivity|]).
      contradiction.
    - assert (Hno : ~ In p [str "lea"; str "loa"; str "thie"; str "shel";
                            str "wol"; str "cal"; str "hal"]).
      { intros Hin. apply mem_In in Hin. congruence. }
      assert (Hv : Lexicon.ves_rule (p ++ str "ves") = None).
      { unfold Lexicon.ves_rule.
        rewrite (endswith_tail p (str "ves") (str "ves") eq_refl).
        change (Lexicon.str_eqb (str "ves") (str "ves")) with true. cbv iota.
        rewrite !(drop_last_app 3 p (str "ves") eq_refl).
        destruct (Lexicon.mem (p ++ str "f") _) eqn:E1.
        { exfalso. apply mem_In in E1. cbn [In] in E1.
          change (str "f") with ["f"%char] in E1.
          repeat (destruct E1 as [E1|E1];
                  [apply snoc_inv in E1; destruct E1 as [E1 E2];
                   vm_compute in E1, E2;
                   first [ discriminate E2
                         | apply Hno; rewrite E1; vm_compute; tauto ]|]).
          contradiction. }
        assert (W : forall q, Lexicon.str_eqb (p ++ str "ves") (q ++ str "ves")
                              = true -> q = p).
        { intros q E. apply str_eqb_eq in E. now apply app_inv_tail in E. }
        destruct (Lexicon.str_eqb (p ++ str "ves") (str "wolves")) eqn:E2.
        { exfalso. apply (W (str "wol")) in E2. apply Hno. rewrite <- E2.
          cbn [In]. tauto. }
        destruct (Lexicon.str_eqb (p ++ str "ves") (str "calves")) eqn:E3.
        { exfalso. apply (W (str "cal")) in E3. apply Hno. rewrite <- E3.
          cbn [In]. tauto. }
        destruct (Lexicon.str_eqb (p ++ str "ves") (str "halves")) eqn:E4.
        { exfalso. apply (W (str "hal")) in E4. apply Hno. rewrite <- E4.
          cbn [In]. tauto. }
        reflexivity. }
      unfold Lexicon.singular_of.
      rewrite lookup_ves, Hv, no_sibilant_before_ves.
      rewrite (endswith_tail p (str "ves") (str "ies") eq_refl).
      rewrite (endswith_tail p (str "ves") (str "oes") eq_refl).
      change (Lexicon.str_eqb (str "ies") (str "ves")) with false.
      change (Lexicon.str_eqb (str "oes") (str "ves")) with false.
      rewrite andb_false_r. cbn [andb].
      change (str "ves") with (str "ve" ++ str "s"). rewrite app_assoc.
      rewrite (endswith_tail (p ++ str "ve") (str "s") (str "s") eq_refl).
      change (Lexicon.str_eqb (str "s") (str "s")) with true.
      rewrite (drop_last_app 1 (p ++ str "ve") (str "s") eq_refl).
      rewrite !length_app. simpl length.
      replace (1 <? length p + 2 + 1) with true
        by (symmetry; apply Nat.ltb_lt; lia).
      reflexivity. }
  split; [exact Main|]. rewrite Main.
  destruct (Lexicon.mem p _) eqn:Em; cbn [In]; intros H;
    repeat (destruct H as [H|H];
            [apply (f_equal (@rev ascii)) in H; rewrite rev_app_distr in H;
             cbn [rev str list_ascii_of_string app] in H; discriminate|]);
    contradiction.
Qed.

Lemma plural_to_singular_ves_witness :
  Lexicon.plural_to_singular (str "knives") = str "knive" /\
  Lexicon.plural_to_singular (str "leaves") = str "leaf".
Proof.
  destruct (plural_to_singular_ves (str "kni") eq_refl) as [H1 _].
  destruct (plural_to_singular_ves (str "lea") eq_refl) as [H2 _].
  split; [exact H1 | exact H2].
Defined.

(** X5.  Nothing is both a fruit and a vegetable or a product; the only
    word that is both a vegetable and a product is pepper. *)
Theorem categories_overlap_only_at_pepper (item : pystr) :
  (Lexicon.is_fruit item = true ->
   Lexicon.is_vegetable item = false /\ Lexicon.is_product item = false) /\
  (Lexicon.is_vegetable item = true /\ Lexicon.is_product item = true
   <-> Lexicon.plural_to_singular (strip item) = str "pepper").
Proof.
  unfold Lexicon.is_fruit, Lexicon.is_vegetable, Lexicon.is_product.
  generalize (Lexicon.plural_to_singular (strip item)). intros x. split.
  - intros H. apply mem_In in H. unfold Lexicon.fruits in H. cbn [In] in H.
    repeat (destruct H as [H|H]; [rewrite <- H; split; reflexivity|]).
    contradiction.
  - split.
    + intros [Hv Hp]. apply mem_In in Hv. unfold Lexicon.vegetables in Hv.
      cbn [In] in Hv.
      repeat (destruct Hv as [Hv|Hv];
              [rewrite <- Hv in *;
               first [ reflexivity | vm_compute in Hp; discriminate Hp ]|]).
      contradiction.
    + intros ->. split; reflexivity.
Qed.

(** X6.  Every name of the three tables is recognised by its classifier,
    and so is the name followed by [s], with one exception: [cheeses] is
    not a product (the sibilant rule cuts it to [chees]). *)
Theorem listed_names_and_s_plurals :
  Forall (fun n => Lexicon.is_fruit n = true /\
                   Lexicon.is_fruit (n ++ str "s") = true)
         Lexicon.fruits /\
  Forall (fun n => Lexicon.is_vegetable n = true /\
                   Lexicon.is_vegetable (n ++ str "s") = true)
         Lexicon.vegetables /\
  Forall (fun n => Lexicon.is_product n = true /\
                   (n <> str "cheese" ->
                    Lexicon.is_product (n ++ str "s") = true))
         Lexicon.products /\
  Lexicon.plural_to_singular (str "cheeses") = str "chees" /\
  Lexicon.is_product (str "cheeses") = false.
Proof.
  assert (F : forall (f : pystr -> bool) (P : pystr -> Prop) l,
             (forall n, f n = true -> P n) -> forallb f l = true ->
             Forall P l).
  { intros f P l Hf H. apply Forall_forall. intros n Hn. apply Hf.
    rewrite forallb_forall in H. now apply H. }
  split; [|split; [|split; [|split]]].
  - apply (F (fun n => Lexicon.is_fruit n
                       && Lexicon.is_fruit (n ++ str "s"))).
    + intros n H. now apply andb_true_iff in H.
    + vm_compute. reflexivity.
  - apply (F (fun n => Lexicon.is_vegetable n
                       && Lexicon.is_vegetable (n ++ str "s"))).
    + intros n H. now apply andb_true_iff in H.
    + vm_compute. reflexivity.
  - apply (F (fun n => Lexicon.is_product n
                       && (Lexicon.str_eqb n (str "cheese")
                           || Lexicon.is_product (n ++ str "s")))).
    + intros n H. apply andb_true_iff in H. destruct H as [H1 H2].
      split; [exact H1|]. intros Hn. apply orb_true_iff in H2.
      destruct H2 as [H2|H2]; [|exact H2].
      apply str_eqb_eq in H2. contradiction.
    + vm_compute. reflexivity.
  - vm_compute. reflexivity.
  - vm_compute. reflexivity.
Qed.

(** ** Sorted sets of strings *)

Section SortedFacts.

Import Lexicon.

Lemma code_inj (a b : ascii) : code a = code b -> a = b.
Proof.
  unfold code. intros H. apply (f_equal ascii_of_N) in H.
  now rewrite !ascii_N_embedding in H.
Qed.

Lemma str_compare_eq (a b : pystr) : str_compare a b = Eq -> a = b.
Proof.
  revert b; induction a as [|c a IH]; intros [|d b]; simpl;
    try discriminate; [reflexivity|].
  destruct (N.compare_spec (code c) (code d)) as [E|E|E]; try discriminate.
  intros H. apply code_inj in E. subst. f_equal. now apply IH.
Qed.

Lemma str_compare_antisym (a b : pystr) :
  str_compare b a = CompOpp (str_compare a b).
Proof.
  revert b; induction a as [|c a IH]; intros [|d b]; simpl; try reflexivity.
  rewrite (N.compare_antisym (code c) (code d)).
  destruct (code c ?= code d)%N; simpl; auto.
Qed.

Lemma str_lt_trans (a b c : pystr) :
  str_lt a b -> str_lt b c -> str_lt a c.
Proof.
  unfold str_lt. revert b c; induction a as [|x a IH]; intros [|y b] [|z c];
    simpl; try discriminate; try reflexivity.
  destruct (N.compare_spec (code x) (code y)) as [E1|E1|E1];
    destruct (N.compare_spec (code y) (code z)) as [E2|E2|E2];
    try discriminate; intros H1 H2.
  - rewrite E1, E2, N.compare_refl. eapply IH; eauto.
  - rewrite E1. now apply N.compare_lt_iff in E2 as ->.
  - rewrite <- E2. now apply N.compare_lt_iff in E1 as ->.
  - assert (E : (code x < code z)%N) by lia.
    now apply N.compare_lt_iff in E as ->.
Qed.

Lemma str_lt_irrefl (a : pystr) : ~ str_lt a a.
Proof.
  unfold str_lt. induction a as [|x a IH]; simpl; [discriminate|].
  now rewrite N.compare_refl.
Qed.

Lemma insert_sorted_In (x y : pystr) (l : list pystr) :
  In x (insert_sorted y l) <-> x = y \/ In x l.
Proof.
  induction l as [|z l IH]; simpl; [intuition (subst; auto)|].
  destruct (str_compare y z) eqn:E; simpl.
  - apply str_compare_eq in E. subst. intuition (subst; auto).
  - intuition (subst; auto).
  - rewrite IH. intuition (subst; auto).
Qed.

Lemma insert_sorted_sorted (y : pystr) (l : list pystr) :
  StronglySorted str_lt l -> StronglySorted str_lt (insert_sorted y l).
Proof.
  induction l as [|z l IH]; intros H; simpl.
  - constructor; constructor.
  - inversion H as [|? ? Hs Hf]; subst.
    destruct (str_compare y z) eqn:E.
    + exact H.
    + constructor; [exact H|]. constructor; [exact E|].
      rewrite Forall_forall in *. intros u Hu.
      apply (str_lt_trans y z u E). now apply Hf.
    + constructor; [now apply IH|].
      rewrite Forall_forall in *. intros u Hu.
      apply insert_sorted_In in Hu. destruct Hu as [->|Hu]; [|now apply Hf].
      unfold str_lt. rewrite str_compare_antisym, E. reflexivity.
Qed.

(** [sorted(set(l))] is strictly increasing and has the elements of [l]. *)
Lemma sorted_set_spec (l : list pystr) :
  StronglySorted str_lt (sorted_set l) /\
  forall x, In x (sorted_set l) <-> In x l.
Proof.
  unfold sorted_set. induction l as [|y l [IH1 IH2]]; cbn [fold_right].
  - split; [constructor | intros x; reflexivity].
  - split; [now apply insert_sorted_sorted|].
    intros x. rewrite insert_sorted_In, IH2. simpl. intuition (subst; auto).
Qed.

Lemma is_ingredient_norm (a b : pystr) :
  strip (lower a) = strip (lower b) -> is_ingredient a = is_ingredient b.
Proof.
  intros H. unfold is_ingredient.
  now rewrite !is_fruit_norm, !is_vegetable_norm, !is_product_norm, H.
Qed.

Lemma lower_no_space (t : pystr) :
  Forall (fun c => isspace c = false) t ->
  Forall (fun c => isspace c = false) (lower t).
Proof.
  intros H. unfold lower. apply Forall_map.
  rewrite Forall_forall in *. intros c Hc. rewrite isspace_lower_char.
  now apply H.
Qed.

End SortedFacts.

(** X7.  [get_ingredients] returns, joined by commas, the strictly
    increasing list of the distinct names that are the lowercased form of
    some white-space separated token of the input recognised by [is_fruit],
    [is_vegetable] or [is_product].  Every returned name is itself
    recognised and holds no white space (so the entries of the tables that
    hold a space are never returned), and without a recognised token the
    result is the empty string. *)
Theorem get_ingredients_sorted_distinct (item : pystr) :
  exists names,
    Lexicon.get_ingredients item = join (str ",") names /\
    StronglySorted Lexicon.str_lt names /\
    NoDup names /\
    (forall x, In x names <->
               exists tok, In tok (split item) /\
                           Lexicon.is_ingredient tok = true /\
                           x = lower tok) /\
    Forall (fun x => Lexicon.is_ingredient x = true /\
                     Forall (fun c => isspace c = false) x) names /\
    ((forall tok, In tok (split item) -> Lexicon.is_ingredient tok = false) ->
     Lexicon.get_ingredients item = []).
Proof.
  set (names := Lexicon.sorted_set
                  (map (fun x => strip (lower x))
                     (filter Lexicon.is_ingredient (split item)))).
  exists names.
  destruct (sorted_set_spec
              (map (fun x => strip (lower x))
                 (filter Lexicon.is_ingredient (split item))))
    as [Hs Hin]. fold names in Hs, Hin.
  assert (Htok : forall tok, In tok (split item) ->
                             Forall (fun c => isspace c = false) tok).
  { pose proof (split_no_space item) as H. rewrite Forall_forall in H.
    exact H. }
  assert (Hmem : forall x, In x names <->
                   exists tok, In tok (split item) /\
                               Lexicon.is_ingredient tok = true /\
                               x = lower tok).
  { intros x. rewrite Hin, in_map_iff. split.
    - intros [tok [E Ht]]. apply filter_In in Ht. destruct Ht as [Ht Hi].
      exists tok. repeat split; try assumption.
      rewrite <- E. apply strip_no_space, lower_no_space. now apply Htok.
    - intros [tok (Ht & Hi & ->)]. exists tok. split.
      + apply strip_no_space, lower_no_space. now apply Htok.
      + apply filter_In. now split. }
  split; [reflexivity|]. split; [exact Hs|]. split; [|split; [exact Hmem|split]].
  - clear - Hs. induction Hs as [|a l Hl IH Hf]; constructor; [|exact IH].
    intros Ha. rewrite Forall_forall in Hf.
    exact (str_lt_irrefl a (Hf a Ha)).
  - apply Forall_forall. intros x Hx. apply Hmem in Hx.
    destruct Hx as [tok (Ht & Hi & ->)]. split.
    + rewrite <- Hi. apply is_ingredient_norm. now rewrite lower_idem.
    + apply lower_no_space. now apply Htok.
  - intros Hnone. unfold Lexicon.get_ingredients. fold names.
    destruct names as [|x rest] eqn:E; [reflexivity|].
    exfalso. destruct (proj1 (Hmem x) (or_introl eq_refl)) as [tok (Ht & Hi & _)].
    rewrite (Hnone tok Ht) in Hi. discriminate.
Qed.

(** ** More on [execute_python_file] and [is_text_file] *)

Section MoreUtilsFacts.

Lemma py_str_nonempty (z : Z) : py_str z <> [].
Proof.
  intros E. pose proof (parse_int_py_str z) as H. rewrite E in H.
  discriminate.
Qed.

Lemma first_int_nonempty (tokens : list pystr) (n : pystr) :
  first_int tokens = Some n -> n <> [].
Proof.
  induction tokens as [|i rest IH]; [discriminate|]. simpl.
  destruct (py_int (strip i)) as [z|e]; [|exact IH].
  intros [= <-]. apply py_str_nonempty.
Qed.

Lemma reduce_result_nonempty (r : CompletedProcess) : reduce_result r <> [].
Proof.
  unfold reduce_result.
  destruct (nonempty (stderr r) && negb (returncode r =? 0)%Z);
    [discriminate|].
  destruct (nonempty (stderr r)).
  - intros E. apply app_eq_nil in E. destruct E as [_ E]. discriminate.
  - destruct (first_int _) as [n|] eqn:E; [now apply first_int_nonempty in E|].
    destruct (strip (stdout r)); discriminate.
Qed.

Lemma reduce_result_error (rc : Z) (out err : pystr) :
  err <> [] -> rc <> 0%Z ->
  reduce_result (mk_completed rc out err) = str "Error: " ++ strip err.
Proof.
  intros He Hrc. unfold reduce_result. cbn [stderr stdout returncode].
  rewrite (nonempty_true _ He).
  destruct (rc =? 0)%Z eqn:E; [apply Z.eqb_eq in E; contradiction|].
  reflexivity.
Qed.

End MoreUtilsFacts.

(** X8.  What [execute_python_file] makes of a finished run is decided by
    stderr first.  With stderr not empty and a non-zero exit code the result
    is ["Error: "] followed by the stripped stderr, and stdout is dropped.
    With stderr not empty and exit code 0 the result is the stripped
    stdout, a line break, ["Warnings/Info: "] and the stripped stderr, and no
    integer is extracted.  With stderr empty the exit code plays no part: a
    run that fails silently is reduced like a successful one. *)
Theorem reduce_result_stderr_first (rc : Z) (out err : pystr) :
  (err <> [] -> rc <> 0%Z ->
   reduce_result (mk_completed rc out err) = str "Error: " ++ strip err) /\
  (err <> [] ->
   reduce_result (mk_completed 0 out err)
   = strip out ++ str (String "010" "Warnings/Info: ") ++ strip err) /\
  (forall rc', reduce_result (mk_completed rc out [])
               = reduce_result (mk_completed rc' out [])).
Proof.
  split; [apply reduce_result_error|].
  unfold reduce_result. cbn [stderr stdout returncode]. split.
  - intros He. rewrite (nonempty_true _ He). reflexivity.
  - reflexivity.
Qed.

(** X9.  Every failure of [execute_python_file] comes back as a string that
    begins with ["Error: "]: a missing file, a path that does not end in
    [.py], a timeout, any exception of the call that starts the child
    (["Error: Subprocess error: "] for a [SubprocessError],
    ["Error: Unexpected error: "] otherwise, each followed by the
    exception's text), and a non-zero exit code with output on stderr. *)
Theorem execute_python_file_failures_are_strings (w : world) (path : pystr) :
  (path_exists w path = false \/ endswith path (str ".py") = false \/
   (exists e, child_of w path = Fails e) \/ child_of w path = Hangs \/
   (exists t rc out err, child_of w path = Exits t rc out err /\
      ((run_timeout < t)%Q \/ (err <> [] /\ rc <> 0%Z))) ->
   exists reason, execute_python_file w path = Ret (str "Error: " ++ reason)) /\
  (forall e, path_exists w path = true -> endswith path (str ".py") = true ->
     child_of w path = Fails e ->
     execute_python_file w path
     = Ret (match cls e with
            | TimeoutExpired => timeout_message
            | CalledProcessError | OtherSubprocessError =>
                str "Error: Subprocess error: " ++ msg e
            | _ => str "Error: Unexpected error: " ++ msg e
            end)).
Proof.
  assert (Hfail : forall e, path_exists w path = true ->
            endswith path (str ".py") = true -> child_of w path = Fails e ->
            execute_python_file w path
            = Ret (match cls e with
                   | TimeoutExpired => timeout_message
                   | CalledProcessError | OtherSubprocessError =>
                       str "Error: Subprocess error: " ++ msg e
                   | _ => str "Error: Unexpected error: " ++ msg e
                   end)).
  { intros e He Hp Hc. unfold execute_python_file, subprocess_run.
    rewrite He, Hp, Hc. cbn [negb bind]. destruct (cls e); reflexivity. }
  split; [|exact Hfail].
  destruct (path_exists w path) eqn:He.
  2:{ intros _. exists (str "File not found: " ++ path).
      unfold execute_python_file. now rewrite He. }
  destruct (endswith path (str ".py")) eqn:Hp.
  2:{ intros _. exists (str "File is not a Python file: " ++ path).
      unfold execute_python_file. now rewrite He, Hp. }
  intros [H|[H|[[e H]|[H|(t & rc & out & err & H & Hc)]]]]; try discriminate.
  - rewrite (Hfail e eq_refl eq_refl H).
    destruct (cls e); eexists; reflexivity.
  - rewrite (execute_python_file_timed_out w path He Hp (or_introl H)).
    eexists; reflexivity.
  - destruct Hc as [Ht|[Herr Hrc]].
    + rewrite (execute_python_file_timed_out w path He Hp).
      * eexists; reflexivity.
      * right. now exists t, rc, out, err.
    + destruct (Qlt_le_dec run_timeout t) as [Ht|Ht].
      * rewrite (execute_python_file_timed_out w path He Hp).
        -- eexists; reflexivity.
        -- right. now exists t, rc, out, err.
      * rewrite (execute_python_file_finished w path out err t rc He Hp H Ht).
        rewrite (reduce_result_error rc out err Herr Hrc).
        eexists; reflexivity.
Qed.

(** X10.  [execute_python_file] never returns the empty string. *)
Theorem execute_python_file_result_nonempty (w : world) (path : pystr) :
  exists s, execute_python_file w path = Ret s /\ s <> [].
Proof.
  unfold execute_python_file.
  destruct (negb (path_exists w path)); [eexists; split; [reflexivity|discriminate]|].
  destruct (negb (endswith path (str ".py")));
    [eexists; split; [reflexivity|discriminate]|].
  destruct (subprocess_run (child_of w path) run_timeout) as [r|e];
    cbn [bind].
  - eexists; split; [reflexivity | apply reduce_result_nonempty].
  - destruct (cls e); cbn [is_subprocess_error];
      eexists; split; try reflexivity; discriminate.
Qed.

Section SniffFacts.

(** No well-formed UTF-8 sequence holds one of the bytes C0, C1, F5..FF. *)
Lemma well_formed_utf8_bytes (bs : bytes) :
  well_formed_utf8 bs ->
  Forall (fun b => (Byte.to_N b <> 192 /\ Byte.to_N b <> 193
                    /\ Byte.to_N b < 245)%N) bs.
Proof.
  induction 1 as [ | b0 r R0 _ IH | b0 b1 r R0 R1 _ IH
                   | b0 b1 b2 r S R2 _ IH | b0 b1 b2 b3 r S R2 R3 _ IH ];
    unfold in_range in *.
  - constructor.
  - constructor; [lia | exact IH].
  - repeat (constructor; [lia|]). exact IH.
  - pose proof (second_of_three_lead _ _ S).
    assert (128 <= Byte.to_N b1 <= 191)%N
      by (inversion S; subst; unfold in_range in *; lia).
    repeat (constructor; [lia|]). exact IH.
  - pose proof (second_of_four_lead _ _ S).
    assert (128 <= Byte.to_N b1 <= 191)%N
      by (inversion S; subst; unfold in_range in *; lia).
    repeat (constructor; [lia|]). exact IH.
Qed.

Lemma ascii_well_formed (bs : bytes) :
  Forall (fun b => (Byte.to_N b < 128)%N) bs -> well_formed_utf8 bs.
Proof.
  induction 1 as [|b r Hb _ IH]; [constructor|].
  apply wf_one; [unfold in_range; lia | exact IH].
Qed.

Lemma is_text_file_of_content (w : world) (path : pystr) (content : bytes) :
  open_rb w path = Ret content ->
  (well_formed_utf8 (firstn 1024 content) -> is_text_file w path = Ret true) /\
  (~ well_formed_utf8 (firstn 1024 content) ->
   is_text_file w path = Ret false).
Proof.
  intros Ho. unfold is_text_file. rewrite Ho. cbn [bind].
  pose proof (utf8_decode_returns_iff (firstn 1024 content)) as Hwf.
  destruct (utf8_decode (firstn 1024 content)) as [cps|e]; cbn [bind].
  - split; [reflexivity|]. intros Hn. exfalso. apply Hn, Hwf.
    eexists; reflexivity.
  - split.
    + intros Hy. apply Hwf in Hy. destruct Hy; discriminate.
    + intros _. destruct (cls e); reflexivity.
Qed.

End SniffFacts.

(** X11.  For a file that can be opened: if each of its first 1024 bytes is
    below 0x80 (an empty file, plain ASCII), [is_text_file] answers [True];
    if one of the first 1024 bytes is 0xC0, 0xC1 or 0xF5 and above, bytes
    that no UTF-8 text holds, it answers [False]. *)
Theorem is_text_file_ascii_and_impossible_bytes
    (w : world) (path : pystr) (content : bytes)
    (Hopen : open_rb w path = Ret content) :
  (content = [] -> is_text_file w path = Ret true) /\
  (Forall (fun b => (Byte.to_N b < 128)%N) (firstn 1024 content) ->
   is_text_file w path = Ret true) /\
  (Exists (fun b => (Byte.to_N b = 192 \/ Byte.to_N b = 193
                     \/ 245 <= Byte.to_N b)%N) (firstn 1024 content) ->
   is_text_file w path = Ret false).
Proof.
  destruct (is_text_file_of_content w path content Hopen) as [Hy Hn].
  split; [|split].
  - intros ->. apply Hy. constructor.
  - intros H. apply Hy. now apply ascii_well_formed.
  - intros H. apply Hn. intros Hw. apply well_formed_utf8_bytes in Hw.
    apply Exists_exists in H. destruct H as [b [Hb Hbad]].
    rewrite Forall_forall in Hw. specialize (Hw b Hb). lia.
Qed.

Lemma is_text_file_ascii_and_impossible_bytes_witness :
  is_text_file (one_file (str "f") [Byte.x68; Byte.x69] [] Hangs) (str "f")
  = Ret true /\
  is_text_file (one_file (str "f") [Byte.x68; Byte.xff] [] Hangs) (str "f")
  = Ret false.
Proof.
  split.
  - destruct (is_text_file_ascii_and_impossible_bytes
                (one_file (str "f") [Byte.x68; Byte.x69] [] Hangs) (str "f")
                [Byte.x68; Byte.x69] eq_refl) as (_ & H & _).
    apply H. repeat constructor.
  - destruct (is_text_file_ascii_and_impossible_bytes
                (one_file (str "f") [Byte.x68; Byte.xff] [] Hangs) (str "f")
                [Byte.x68; Byte.xff] eq_refl) as (_ & _ & H).
    apply H. apply Exists_cons_tl, Exists_cons_hd. right. right.
    vm_compute. discriminate.
Defined.

(** ** More on [optimized_web_search], [load_youtube] and the prompt *)

Section MoreSearchFacts.




Lemma startswith_nil (s : pystr) : startswith [] s = true.
Proof. destruct s; reflexivity. Qed.

Lemma contains_nil (s : pystr) : contains [] s = true.
Proof. unfold contains, find. destruct s; reflexivity. Qed.


End MoreSearchFacts.

(** X12.  The calls of [optimized_web_search] that cannot give content end
    in fixed strings.  No result ([None], an empty string or an empty list)
    gives ["No search results found."]; an exception of the search gives
    ["Error during optimized web search: "] followed by its text.  With
    results at hand, a chunk size of 0 gives that error string with the
    text of [range()], and a negative chunk size gives the "No content"
    sentinel whatever the keywords are, since no chunk is formed. *)
Theorem optimized_web_search_degenerate_calls
    (repr_list : list pystr -> pystr) (K : list pystr) :
  (forall r k,
     r = None \/ r = Some (Flat []) \/ r = Some (Results []) ->
     optimized_web_search repr_list (Ret r) K k
     = Ret (str "No search results found.")) /\
  (forall e k,
     optimized_web_search repr_list (Raise e) K k
     = Ret (str "Error during optimized web search: " ++ msg e)) /\
  (forall r, is_empty (Some r) = false ->
     optimized_web_search repr_list (Ret (Some r)) K 0
     = Ret (str "Error during optimized web search: range() arg 3 must not be zero")) /\
  (forall r k, is_empty (Some r) = false -> (k < 0)%Z ->
     optimized_web_search repr_list (Ret (Some r)) K k
     = Ret (str "No content containing the important words "
            ++ repr_list K ++ str " was found in the search results.")).
Proof.
  split; [|split; [|split]].
  - intros r k [->|[->| ->]]; reflexivity.
  - reflexivity.
  - intros r Hr. unfold optimized_web_search. cbn [bind]. rewrite Hr.
    reflexivity.
  - intros r k Hr Hk. unfold optimized_web_search. cbn [bind]. rewrite Hr.
    unfold make_batches, py_range.
    destruct (k =? 0)%Z eqn:E0; [apply Z.eqb_eq in E0; lia|].
    destruct (k <? 0)%Z eqn:E1; [|apply Z.ltb_ge in E1; lia].
    reflexivity.
Qed.



Section JoinFacts.

Lemma partition_batches (c : pystr) (k : Z) :
  (0 < k)%Z ->
  exists batches, make_batches c k = Ret batches /\ concat batches = c.
Proof.
  intros Hk. eexists. split; [now apply make_batches_eq|].
  rewrite concat_slices. apply firstn_all2.
  now destruct (ceil_div_spec (length c) (Z.to_nat k) ltac:(lia)).
Qed.

Lemma keep_batch_empty_keyword (K : list pystr) (b : pystr) :
  In [] K -> keep_batch K b = true.
Proof.
  intros H. unfold keep_batch. apply existsb_exists. exists [].
  split; [exact H | apply contains_nil].
Qed.

Lemma filter_all (A : Type) (f : A -> bool) (l : list A) :
  (forall x, In x l -> f x = true) -> filter f l = l.
Proof.
  induction l as [|x l IH]; intros H; [reflexivity|]. simpl.
  rewrite (H x (or_introl eq_refl)). f_equal. apply IH. intros y Hy.
  apply H. now right.
Qed.

Lemma join_length (sep : pystr) (parts : list pystr) :
  length (join sep parts) + length sep
  = length (concat parts) + length sep * length parts
    + (match parts with [] => length sep | _ => 0 end).
Proof.
  induction parts as [|p rest IH]; [simpl; lia|].
  destruct rest as [|q rest].
  - simpl. rewrite app_nil_r. lia.
  - change (join sep (p :: q :: rest)) with (p ++ sep ++ join sep (q :: rest)).
    change (concat (p :: q :: rest)) with (p ++ concat (q :: rest)).
    rewrite !length_app. cbn [length] in *. lia.
Qed.

Lemma filter_concat_length (f : pystr -> bool) (l : list pystr) :
  length (concat (filter f l)) <= length (concat l) /\
  length (filter f l) <= length l.
Proof.
  induction l as [|x l [IH1 IH2]]; [simpl; lia|]. simpl.
  destruct (f x); simpl; rewrite ?length_app; lia.
Qed.

End JoinFacts.

(** X14.  An empty string among the keywords switches the filter off: for a
    positive chunk size and non-empty content every chunk is retained and
    [optimized_web_search] returns all chunks joined by blank lines. *)
Theorem optimized_web_search_empty_keyword
    (repr_list : list pystr -> pystr) (r : search_results) (K : list pystr)
    (k : Z) (Hr : flatten r <> []) (Hk : (0 < k)%Z) (HK : In [] K) :
  exists batches,
    make_batches (flatten r) k = Ret batches /\
    concat batches = flatten r /\
    optimized_web_search repr_list (Ret (Some r)) K k
    = Ret (join (str (String "010" (String "010" ""))) batches).
Proof.
  destruct (partition_batches (flatten r) k Hk) as (batches & Hb & Hc).
  exists batches. split; [exact Hb|]. split; [exact Hc|].
  assert (He : is_empty (Some r) = false).
  { destruct r as [[|c s]|[|x l]]; try reflexivity; simpl in Hr; congruence. }
  assert (Hne : batches <> []).
  { intros ->. simpl in Hc. congruence. }
  unfold optimized_web_search. cbn [bind]. rewrite He, Hb. cbn [bind].
  rewrite filter_batches_eq, filter_all
    by (intros b _; now apply keep_batch_empty_keyword).
  pose proof (join_nonempty (str (String "010" (String "010" ""))) batches Hne
                (make_batches_nonempty _ _ _ Hk Hb)) as Hj.
  destruct (join _ batches); [congruence | reflexivity].
Qed.

Lemma optimized_web_search_empty_keyword_witness :
  optimized_web_search (fun _ => []) (Ret (Some (Flat (str "abcde"))))
    [str "zz"; []] 2
  = Ret (str ("ab" ++ String "010" (String "010" "cd")
              ++ String "010" (String "010" "e"))).
Proof.
  destruct (optimized_web_search_empty_keyword (fun _ => [])
              (Flat (str "abcde")) [str "zz"; []] 2%Z
              ltac:(discriminate) eq_refl (or_intror (or_introl eq_refl)))
    as (batches & Hb & _ & H).
  rewrite H. injection Hb as <-. reflexivity.
Defined.

(** X15.  Whenever [optimized_web_search] returns retained content, that
    text is no longer than the flattened content plus two characters for
    each chunk boundary: at most [len + 2 * (ceil(len / k) - 1)]
    characters. *)
Theorem optimized_web_search_output_bound
    (repr_list : list pystr -> pystr) (r : search_results) (K : list pystr)
    (k : Z) (batches : list pystr)
    (Hr : is_empty (Some r) = false) (Hk : (0 < k)%Z)
    (Hb : make_batches (flatten r) k = Ret batches)
    (Hkept : filter_batches K batches <> []) :
  exists out,
    optimized_web_search repr_list (Ret (Some r)) K k = Ret out /\
    length out
    <= length (flatten r)
       + 2 * (ceil_div (length (flatten r)) (Z.to_nat k) - 1).
Proof.
  exists (join (str (String "010" (String "010" ""))) (filter_batches K batches)).
  split.
  - unfold optimized_web_search. cbn [bind]. rewrite Hr, Hb. cbn [bind].
    assert (Hj : join (str (String "010" (String "010" "")))
                   (filter_batches K batches) <> []).
    { apply join_nonempty; [assumption|].
      rewrite filter_batches_eq.
      now apply Forall_filter, (make_batches_nonempty _ _ _ Hk Hb). }
    destruct (join _ (filter_batches K batches)); [congruence | reflexivity].
  - destruct (partition_batches (flatten r) k Hk) as (bs & Hb' & Hc).
    rewrite Hb in Hb'. injection Hb' as <-.
    pose proof (make_batches_eq (flatten r) k Hk) as Heq. rewrite Hb in Heq.
    injection Heq as Heq.
    assert (Hlen : length batches = ceil_div (length (flatten r)) (Z.to_nat k))
      by (rewrite Heq; now rewrite length_map, length_seq).
    pose proof (join_length (str (String "010" (String "010" "")))
                  (filter_batches K batches)) as J.
    rewrite filter_batches_eq in *.
    destruct (filter_concat_length (keep_batch K) batches) as [F1 F2].
    rewrite Hc in F1. change (length (str (String "010" (String "010" ""))))
      with 2 in J.
    destruct (filter (keep_batch K) batches) as [|x rest] eqn:Ef;
      [congruence|].
    rewrite <- Ef in *. rewrite <- Hlen. lia.
Qed.

Lemma optimized_web_search_output_bound_witness :
  exists out,
    optimized_web_search (fun _ => []) (Ret (Some (Flat (str "abcde"))))
      [str "a"; str "E"] 2 = Ret out /\
    length out <= 5 + 2 * 2.
Proof.
  exact (optimized_web_search_output_bound (fun _ => [])
           (Flat (str "abcde")) [str "a"; str "E"] 2%Z
           [str "ab"; str "cd"; str "e"] eq_refl eq_refl eq_refl
           ltac:(vm_compute; discriminate)).
Defined.

(** X16.  What [load_youtube] returns is always a suffix of the lowercased
    transcript that the loader came back with; and when nothing is left of
    the phrase once its periods and question marks are removed (an empty
    phrase, ["?"], ["..."]), it is the whole lowercased transcript. *)
Theorem load_youtube_returns_suffix
    (p : provider) (phrase content : pystr)
    (Hload : _loader_retrying p = Ret content) :
  (exists pre result,
     load_youtube p phrase = Ret result /\ content = pre ++ result) /\
  (normalize_phrase phrase = [] -> load_youtube p phrase = Ret content).
Proof.
  unfold load_youtube. rewrite Hload. cbn [bind]. split.
  - unfold seek, index.
    destruct (contains (normalize_phrase phrase) content) eqn:Ec.
    + unfold contains in Ec.
      destruct (find (normalize_phrase phrase) content) as [i|] eqn:Ef;
        [|discriminate].
      cbn [bind]. exists (firstn i content), (slice content i (length content)).
      split; [reflexivity|]. unfold slice.
      assert (E : firstn (length content - i) (skipn i content)
                  = skipn i content)
        by (apply firstn_all2; rewrite length_skipn; lia).
      rewrite E. symmetry. apply firstn_skipn.
    + exists [], content. split; reflexivity.
  - intros ->. unfold seek, index. rewrite contains_nil.
    assert (Ef : find [] content = Some 0) by (destruct content; reflexivity).
    rewrite Ef. cbn [bind].
    unfold slice. rewrite Nat.sub_0_r. cbn [skipn]. now rewrite firstn_all.
Qed.

Lemma load_youtube_returns_suffix_witness :
  load_youtube (always_loads [str "Say HELLO"]) (str "?.")
  = Ret (str "say hello").
Proof.
  destruct (load_youtube_returns_suffix (always_loads [str "Say HELLO"])
              (str "?.") (str "say hello") eq_refl) as [_ H].
  exact (H eq_refl).
Defined.

(** X17.  Attachment handling never changes the question itself and never
    fails: the prompt always begins with the question, and it is the
    question alone when no path is given, when the path is empty or does
    not exist, and when the file is classified as text but reading it
    raises. *)
Theorem build_prompt_falls_back_to_question (w : world) (question : pystr) :
  (forall file_path, exists added,
     build_prompt w question file_path = question ++ added) /\
  build_prompt w question None = question /\
  build_prompt w question (Some []) = question /\
  (forall path, path_exists w path = false ->
     build_prompt w question (Some path) = question) /\
  (forall path e, is_text_file w path = Ret true ->
     open_r w path = Raise e ->
     build_prompt w question (Some path) = question).
Proof.
  split; [|repeat split].
  - intros [path|]; [|exists []; simpl; now rewrite app_nil_r].
    unfold build_prompt.
    destruct (nonempty path && path_exists w path);
      [|exists []; now rewrite app_nil_r].
    destruct (is_text_file w path) as [[|]|e]; cbn [bind].
    + destruct (open_r w path) as [content|e]; cbn [bind];
        [|exists []; now rewrite app_nil_r].
      destruct (pystr_eqb _ _); eexists; reflexivity.
    + destruct (pystr_eqb _ _); eexists; reflexivity.
    + exists []. now rewrite app_nil_r.
  - intros path He. unfold build_prompt. rewrite He.
    now rewrite andb_false_r.
  - intros path e Ht Hr. unfold build_prompt.
    destruct (nonempty path && path_exists w path); [|reflexivity].
    rewrite Ht. cbn [bind]. rewrite Hr. reflexivity.
Qed.

(** ** [download_file] *)

Section DownloadFacts.

Import Lexicon Download.

Lemma str_eqb_refl (a : pystr) : str_eqb a a = true.
Proof. now apply str_eqb_eq. Qed.

Lemma write_file_same (fs : filesystem) (p : pystr) (content : bytes) :
  write_file fs p content p = Some content.
Proof. unfold write_file. now rewrite str_eqb_refl. Qed.

Lemma write_file_other (fs : filesystem) (p q : pystr) (content : bytes) :
  q <> p -> write_file fs p content q = fs q.
Proof.
  intros H. unfold write_file. destruct (str_eqb q p) eqn:E; [|reflexivity].
  apply str_eqb_eq in E. contradiction.
Qed.

End DownloadFacts.

(** X18.  [download_file] always answers with
    [os.path.join("downloaded_files", filename)] unless it raises.  When
    that file exists already nothing is requested and nothing changes.
    When the request fails with a [RequestException] the failure is
    swallowed: the path is returned although no file is there, the files
    are as before, and [BasicAgent] then passes the bare question on.  Any
    other failure, of the request or of writing the file, is raised. *)
Theorem download_file_cache_and_failures
    (o : Download.outside) (fs : Download.filesystem) (url filename : pystr) :
  let file_path := Download.path_join (str "downloaded_files") filename in
  (Download.file_exists fs file_path = true ->
   forall o' url',
     Download.download_file o' fs url' filename
     = (fs, Failure.Done file_path)) /\
  (Download.file_exists fs file_path = false ->
   forall e, Download.get o url = Failure.Failed e ->
     Failure.kind_of e = Failure.RequestException ->
     Download.download_file o fs url filename = (fs, Failure.Done file_path) /\
     forall w question,
       World.path_exists w file_path = Download.file_exists fs file_path ->
       build_prompt w question (Some file_path) = question) /\
  (Download.file_exists fs file_path = false ->
   forall e, Failure.kind_of e <> Failure.RequestException ->
     Download.get o url = Failure.Failed e \/
     (exists content, Download.get o url = Failure.Done content /\
                      Download.store_fails o file_path = Some e) ->
     Download.download_file o fs url filename = (fs, Failure.Failed e)).
Proof.
  intros file_path. split; [|split].
  - intros He o' url'. unfold Download.download_file. fold file_path.
    now rewrite He.
  - intros He e Hg Hk. split.
    + unfold Download.download_file. fold file_path. rewrite He, Hg.
      cbn [negb snd fst]. now rewrite Hk.
    + intros w question Hw. rewrite He in Hw. unfold build_prompt.
      rewrite Hw. now rewrite andb_false_r.
  - intros He e Hk H. unfold Download.download_file. fold file_path.
    rewrite He. cbn [negb].
    assert (Hr : Failure.is_request_exception (Failure.kind_of e) = false)
      by (destruct (Failure.kind_of e); try reflexivity; congruence).
    destruct H as [Hg|[content [Hg Hs]]]; rewrite Hg; [|rewrite Hs];
      cbn [snd fst]; now rewrite Hr.
Qed.

(** X19.  When the file is missing, the request succeeds and the file can
    be written, [download_file] stores the content of the response under
    the returned path and leaves every other file alone; a second call for
    the same name then finds the file and requests nothing. *)
Theorem download_file_stores_then_reuses
    (o : Download.outside) (fs : Download.filesystem) (url filename : pystr)
    (content : bytes)
    (Hmissing : Download.file_exists fs
                  (Download.path_join (str "downloaded_files") filename)
                = false)
    (Hget : Download.get o url = Failure.Done content)
    (Hstore : Download.store_fails o
                (Download.path_join (str "downloaded_files") filename)
              = None) :
  let file_path := Download.path_join (str "downloaded_files") filename in
  exists fs',
    Download.download_file o fs url filename = (fs', Failure.Done file_path) /\
    fs' file_path = Some content /\
    (forall q, q <> file_path -> fs' q = fs q) /\
    (forall o' url',
       Download.download_file o' fs' url' filename
       = (fs', Failure.Done file_path)).
Proof.
  intros file_path. fold file_path in Hmissing, Hstore.
  exists (Download.write_file fs file_path content).
  assert (Hw : Download.write_file fs file_path content file_path
               = Some content) by apply write_file_same.
  split; [|split; [exact Hw|split]].
  - unfold Download.download_file. fold file_path.
    now rewrite Hmissing, Hget, Hstore.
  - intros q Hq. now apply write_file_other.
  - intros o' url'. unfold Download.download_file. fold file_path.
    unfold Download.file_exists. now rewrite Hw.
Qed.

Lemma download_file_stores_then_reuses_witness :
  exists fs',
    Download.download_file (Download.answering [Byte.x68; Byte.x69]) Download.empty_disk
      (str "https://host/files/1") (str "notes.txt")
    = (fs', Failure.Done (str "downloaded_files/notes.txt")) /\
    fs' (str "downloaded_files/notes.txt") = Some [Byte.x68; Byte.x69].
Proof.
  destruct (download_file_stores_then_reuses (Download.answering [Byte.x68; Byte.x69])
              Download.empty_disk (str "https://host/files/1") (str "notes.txt")
              [Byte.x68; Byte.x69] eq_refl eq_refl eq_refl)
    as (fs' & H1 & H2 & _).
  exists fs'. split; assumption.
Defined.

(** ** [transcribe_audio] *)

Section AudioFacts.

Import Lexicon Audio.

Lemma occurs_tail (old s : pystr) (c : ascii) :
  Occurs old (c :: s) -> startswith old (c :: s) = false -> Occurs old s.
Proof.
  intros [pre [post E]] Hs. destruct pre as [|d pre].
  - simpl in E. assert (startswith old (c :: s) = true)
      by (apply startswith_app; now exists post).
    congruence.
  - injection E as _ E. now exists pre, post.
Qed.

Lemma occurs_cons (old s : pystr) (c : ascii) :
  Occurs old s -> Occurs old (c :: s).
Proof. intros [pre [post ->]]. now exists (c :: pre), post. Qed.

(** Without an occurrence [replace] changes nothing. *)
Lemma replace_aux_absent (old new s : pystr) :
  ~ Occurs old s -> replace_aux old new 0 s = s.
Proof.
  induction s as [|c s IH]; intros H; [reflexivity|].
  cbn [replace_aux].
  destruct (startswith old (c :: s)) eqn:E.
  - exfalso. apply H. apply startswith_app in E. destruct E as [post E].
    exists [], post. exact E.
  - f_equal. apply IH. intros Ho. apply H. now apply occurs_cons.
Qed.

Lemma wav_path_of_absent (p : pystr) :
  ~ Occurs (str ".mp3") p -> wav_path_of p = p.
Proof. apply replace_aux_absent. Qed.

Lemma wav_path_of_present (p : pystr) :
  Occurs (str ".mp3") p -> wav_path_of p <> p.
Proof.
  unfold wav_path_of, replace. cbn [str list_ascii_of_string].
  induction p as [|c p IH]; intros H.
  - destruct H as [[|? ?] [post E]]; discriminate.
  - cbn [replace_aux].
    destruct (startswith _ (c :: p)) eqn:E.
    + apply startswith_app in E. destruct E as [post E]. rewrite E.
      cbn [app]. discriminate.
    + intros Heq. injection Heq as Heq. revert Heq. apply IH.
      now apply (occurs_tail _ p c).
Qed.

End AudioFacts.

(** X20.  [transcribe_audio] raises only three kinds of exception.  A path
    that does not exist gives [FileNotFoundError] ("The file <path> does not
    exist.") before anything is done.  Inside the [try], an
    [UnknownValueError] becomes [ValueError] "Could not understand the
    audio.", a [RequestError] becomes [ValueError] "Could not process
    audio; <text>", and every other exception, whatever its class, becomes a
    plain [Exception] "An error occurred during transcription: <text>". *)
Theorem transcribe_audio_failures
    (audio audio_data : Type) (st : Audio.studio audio audio_data)
    (mp3_path : pystr) :
  (Audio.path_exists st mp3_path = false ->
   Audio.transcribe_audio st mp3_path
   = ([], Failure.Failed
            (Failure.mk_failure Failure.FileNotFoundError
               (str "The file " ++ mp3_path ++ str " does not exist.")))) /\
  (forall events f,
     Audio.transcribe_audio st mp3_path = (events, Failure.Failed f) ->
     (Failure.kind_of f = Failure.FileNotFoundError
      /\ Audio.path_exists st mp3_path = false) \/
     (Audio.path_exists st mp3_path = true /\
      exists e, snd (Audio.transcribe_body st mp3_path) = Failure.Failed e /\
        ((Failure.kind_of e = Failure.UnknownValueError /\
          f = Failure.mk_failure Failure.ValueError
                (str "Could not understand the audio.")) \/
         (Failure.kind_of e = Failure.RequestError /\
          f = Failure.mk_failure Failure.ValueError
                (str "Could not process audio; " ++ Failure.text e)) \/
         (Failure.kind_of e <> Failure.UnknownValueError /\
          Failure.kind_of e <> Failure.RequestError /\
          f = Failure.mk_failure Failure.Exception
                (str "An error occurred during transcription: "
                 ++ Failure.text e))))).
Proof.
  split.
  - intros He. unfold Audio.transcribe_audio. now rewrite He.
  - intros events f. unfold Audio.transcribe_audio.
    destruct (Audio.path_exists st mp3_path) eqn:He; cbn [negb].
    + intros H. right. split; [reflexivity|].
      destruct (snd (Audio.transcribe_body st mp3_path)) as [t|e] eqn:Eb;
        [discriminate|].
      exists e. split; [reflexivity|].
      destruct (Failure.kind_of e) eqn:Ek; injection H as _ <-;
        first [ left; split; [reflexivity | reflexivity]
              | right; left; split; [reflexivity | reflexivity]
              | right; right; repeat split; discriminate || reflexivity ].
    + intros [= _ <-]. left. split; reflexivity.
Qed.

(** X21.  The temporary WAV file.  Its path is the input path with every
    [.mp3] replaced by [.wav]; it differs from the input path exactly when
    [.mp3] occurs in it, so for a path such as [talk.MP3] the export
    overwrites the input file and the clean-up deletes it.  The call only
    ever exports to and removes that one path.  When a text is returned the
    file was exported and then removed; when opening or recording the WAV
    file fails, the exported file is left behind. *)
Theorem transcribe_audio_temporary_file
    (audio audio_data : Type) (st : Audio.studio audio audio_data)
    (mp3_path : pystr) :
  let wav := Audio.wav_path_of mp3_path in
  (Occurs (str ".mp3") mp3_path -> wav <> mp3_path) /\
  (~ Occurs (str ".mp3") mp3_path -> wav = mp3_path) /\
  Forall (fun ev => ev = Audio.Exported wav \/ ev = Audio.Removed wav)
         (fst (Audio.transcribe_audio st mp3_path)) /\
  (forall events text,
     Audio.transcribe_audio st mp3_path = (events, Failure.Done text) ->
     events = [Audio.Exported wav; Audio.Removed wav]) /\
  (forall a e,
     Audio.path_exists st mp3_path = true ->
     Audio.from_mp3 st mp3_path = Failure.Done a ->
     Audio.export_fails st a wav = None ->
     Audio.record st wav = Failure.Failed e ->
     fst (Audio.transcribe_audio st mp3_path) = [Audio.Exported wav]).
Proof.
  intros wav.
  split; [apply wav_path_of_present|]. split; [apply wav_path_of_absent|].
  unfold Audio.transcribe_audio, Audio.transcribe_body. fold wav.
  split; [|split].
  - destruct (Audio.path_exists st mp3_path); cbn [negb fst]; [|constructor].
    destruct (Audio.from_mp3 st mp3_path) as [a|e]; cbn [fst]; [|constructor].
    destruct (Audio.export_fails st a wav); cbn [fst]; [constructor|].
    destruct (Audio.record st wav) as [d|e]; cbn [fst];
      [|repeat (apply Forall_cons; [auto|]); apply Forall_nil].
    destruct (Audio.remove_fails st wav); cbn [fst];
      repeat (apply Forall_cons; [auto|]); apply Forall_nil.
  - intros events text.
    destruct (Audio.path_exists st mp3_path); cbn [negb]; [|discriminate].
    destruct (Audio.from_mp3 st mp3_path) as [a|e]; cbn [fst snd];
      [|destruct (Failure.kind_of e); discriminate].
    destruct (Audio.export_fails st a wav) as [e|]; cbn [fst snd];
      [destruct (Failure.kind_of e); discriminate|].
    destruct (Audio.record st wav) as [d|e]; cbn [fst snd];
      [|destruct (Failure.kind_of e); discriminate].
    destruct (Audio.remove_fails st wav) as [e|]; cbn [fst snd];
      [destruct (Failure.kind_of e); discriminate|].
    destruct (Audio.recognize_google st d) as [t|e];
      [now intros [= <- _] | destruct (Failure.kind_of e); discriminate].
  - intros a e He Hf Hx Hr. rewrite He, Hf. cbn [negb]. rewrite Hx, Hr.
    reflexivity.
Qed.

(** ** [run_and_submit_all] *)

Section AppFacts.

Import App.

Lemma answer_all_eq (sv : services) (items : list item) :
  forall i results payload,
    answer_all sv i items results payload
    = (results ++ map (row_of sv) (numbered i items),
       payload ++ flat_map (payload_of sv) (numbered i items)).
Proof.
  unfold numbered.
  induction items as [|it rest IH]; intros i results payload.
  - simpl. now rewrite !app_nil_r.
  - cbn [answer_all length seq combine map flat_map].
    unfold row_of at 1, payload_of at 1. cbn [fst snd].
    destruct (answer_item sv i it) as [ans|e]; rewrite IH.
    + now rewrite <- !app_assoc.
    + now rewrite <- !app_assoc.
Qed.

Lemma numbered_length (i : nat) (items : list item) :
  length (numbered i items) = length items.
Proof.
  unfold numbered. rewrite length_combine, length_seq. apply Nat.min_id.
Qed.

Lemma numbered_items (i : nat) (items : list item) :
  map snd (numbered i items) = items.
Proof.
  unfold numbered. revert i; induction items as [|it rest IH]; intros i;
    [reflexivity|]. simpl. now rewrite IH.
Qed.

Lemma numbered_nth (items : list item) :
  forall s i it, nth_error items i = Some it ->
                 nth_error (numbered s items) i = Some (s + i, it).
Proof.
  unfold numbered. induction items as [|x rest IH]; intros s [|i] it H;
    try discriminate.
  - injection H as <-. simpl. now rewrite Nat.add_0_r.
  - simpl in *. rewrite (IH (S s) i it H). f_equal. f_equal. lia.
Qed.

Lemma numbered_In (items : list item) :
  forall s j it, In (j, it) (numbered s items) ->
                 exists i, j = s + i /\ nth_error items i = Some it.
Proof.
  unfold numbered. induction items as [|x rest IH]; intros s j it H;
    [contradiction|]. simpl in H. destruct H as [[= <- <-]|H].
  - exists 0. split; [lia | reflexivity].
  - destruct (IH (S s) j it H) as [i [-> Hi]]. exists (S i).
    split; [lia | exact Hi].
Qed.

Lemma payload_length (sv : services) (l : list (nat * item)) :
  length (flat_map (payload_of sv) l) <= length l.
Proof.
  induction l as [|p l IH]; [apply Nat.le_refl|].
  cbn [flat_map]. rewrite length_app. unfold payload_of at 1.
  destruct (answer_item sv (fst p) (snd p)); cbn [length]; lia.
Qed.

End AppFacts.

(** X22.  Once login, set-up and the fetch have succeeded,
    [run_and_submit_all] returns a table with exactly one row per fetched
    item, in order and under the item's task id: the agent's answer, or
    ["ERROR: "] and the exception's text when the download or the agent
    raised for that item, so one failing item does not stop the others.
    What is submitted are the answers of the items that did not fail, in
    order; failed items are left out.  The table is returned whatever
    becomes of the submission, whose failure only shows in the status
    (["Submit error: ..."]). *)
Theorem run_and_submit_all_rows_and_payload
    (sv : App.services) (name : pystr) (items : list App.item)
    (Hinit : App.init_fails sv = None)
    (Hfetch : App.fetch sv = Failure.Done items) :
  let rows := map (App.row_of sv) (App.numbered 0 items) in
  let payload := flat_map (App.payload_of sv) (App.numbered 0 items) in
  App.run_and_submit_all sv (Some name)
  = (App.status_of
       (App.post sv
          (App.mk_submission (strip name)
             (str "https://huggingface.co/spaces/" ++ App.fmt (App.space_id sv)
              ++ str "/tree/main")
             payload)),
     Some rows) /\
  length rows = length items /\
  map fst rows = map App.task_id items /\
  (forall i it, nth_error items i = Some it ->
     nth_error rows i
     = Some (App.task_id it,
             match App.answer_item sv i it with
             | Failure.Done ans => ans
             | Failure.Failed e => str "ERROR: " ++ Failure.text e
             end)) /\
  (forall i it ans, nth_error items i = Some it ->
     App.answer_item sv i it = Failure.Done ans ->
     In (App.task_id it, ans) payload) /\
  (forall tid ans, In (tid, ans) payload ->
     exists i it, nth_error items i = Some it /\ App.task_id it = tid /\
                  App.answer_item sv i it = Failure.Done ans) /\
  length payload <= length items.
Proof.
  intros rows payload.
  split; [|split; [|split; [|split; [|split; [|split]]]]].
  - unfold App.run_and_submit_all. rewrite Hinit, Hfetch.
    rewrite answer_all_eq. cbn [fst snd app]. reflexivity.
  - unfold rows. now rewrite length_map, numbered_length.
  - unfold rows. rewrite map_map. cbn [App.row_of fst].
    rewrite <- (numbered_items 0 items) at 2. now rewrite map_map.
  - intros i it Hi. unfold rows.
    rewrite nth_error_map, (numbered_nth items 0 i it Hi). reflexivity.
  - intros i it ans Hi Ha. unfold payload. apply in_flat_map.
    exists (i, it). split.
    + apply (nth_error_In _ i). exact (numbered_nth items 0 i it Hi).
    + unfold App.payload_of. cbn [fst snd]. rewrite Ha. now left.
  - intros tid ans H. unfold payload in H. apply in_flat_map in H.
    destruct H as [[j it] [Hin H]]. unfold App.payload_of in H.
    cbn [fst snd] in H.
    destruct (App.answer_item sv j it) as [a|e] eqn:Ea; [|contradiction].
    destruct H as [[= <- <-]|[]].
    destruct (numbered_In items 0 j it Hin) as [i [-> Hi]].
    exists i, it. repeat split; assumption.
  - unfold payload. rewrite <- (numbered_length 0 items).
    apply payload_length.
Qed.

Lemma run_and_submit_all_rows_and_payload_witness :
  App.run_and_submit_all App.sample_services (Some (str " me "))
  = (str "Submit error: offline",
     Some [ (Some (str "a"), str "answer to q1");
            (Some (str "b"), str "ERROR: boom");
            (Some (str "c"), str "answer to q3") ]).
Proof.
  destruct (run_and_submit_all_rows_and_payload App.sample_services
              (str " me ") App.sample_items eq_refl eq_refl) as [H _].
  rewrite H. reflexivity.
Defined.

(** ** The docstring examples *)

Section DocstringExamples.

Import Lexicon.

Local Open Scope string_scope.

Example plural_to_singular_docstring :
  map (fun w => plural_to_singular (str w))
      ["cats"; "flies"; "children"; "boxes"]
  = [str "cat"; str "fly"; str "child"; str "box"].
Proof. vm_compute. reflexivity. Qed.

Example classifier_docstrings :
  map (fun w => is_fruit (str w))
      ["apple"; "apples"; "  Strawberries  "; "carrot"; "banana"]
  = [true; true; true; false; true] /\
  map (fun w => is_vegetable (str w))
      ["carrot"; "carrots"; "  BROCCOLI  "; "apple"; "mushrooms"]
  = [true; true; true; false; true] /\
  map (fun w => is_product (str w))
      ["flour"; "eggs"; "  Baking Powder  "; "carrot"; "ice cream"]
  = [true; true; true; false; true] /\
  map (fun w => is_food (str w))
      ["burgers"; "FRIES"; "  Ice Cream  "; "pizza"; "books"]
  = [true; true; true; false; false].
Proof. vm_compute. repeat split. Qed.

Example get_ingredients_docstring :
  map (fun s => get_ingredients (str s))
      ["apple banana flour"; "I need tomato and onion for cooking";
       "car house table"; "APPLE Carrot SUGAR"]
  = [str "apple,banana,flour"; str "onion,tomato"; [];
     str "apple,carrot,sugar"].
Proof. vm_compute. reflexivity. Qed.

Example reverse_string_docstring :
  reverse_string (str "hello") = str "olleh" /\
  reverse_string (str "Python") = str "nohtyP".
Proof. split; reflexivity. Qed.

Example wav_paths :
  map (fun p => Audio.wav_path_of (str p))
      ["sample.mp3"; "talk.MP3"; "x.mp3/y.mp3"]
  = [str "sample.wav"; str "talk.MP3"; str "x.wav/y.wav"].
Proof. vm_compute. reflexivity. Qed.

Example joined_paths :
  Download.path_join (str "downloaded_files") (str "a.txt")
  = str "downloaded_files/a.txt" /\
  Download.path_join (str "downloaded_files") (str "/etc/x") = str "/etc/x".
Proof. split; reflexivity. Qed.

End DocstringExamples.
